(** * httpdigest: client-side HTTP Digest authentication

    A shallow embedding of the Go package [github.com/gabstv/httpdigest]
    (files digest.go, md5.go, transport.go) together with the parts of the
    Go standard library the package calls, and the properties of the
    challenge parser, the digest response engine and the two transports.

    Go values are represented as follows.
    - [string]  : a Go string, i.e. an immutable sequence of bytes
                  (one [ascii] per byte);
    - [list Z]  : a Go [[]byte], each element in [0, 256);
    - [Z]       : a rune, a [uint] or a status code;
    - [result]  : a Go [(value, error)] pair;
    - [gmap]    : a Go map.

    Part I is the program, Part II the vocabulary of the specification
    and the data of the examples, Part III the properties. *)

From Stdlib Require Import ZArith Lia List Ascii String Bool.
From stdpp Require Import base option list strings gmap.

Local Open Scope Z_scope.

(* ===================================================================== *)
(** * Part I. The program                                                *)
(* ===================================================================== *)

(** ** Bytes and strings *)

Definition byte_of_ascii (c : ascii) : Z := Z.of_N (N_of_ascii c).
Definition ascii_of_byte (b : Z) : ascii := ascii_of_N (Z.to_N b).

(** [[]byte(s)] *)
Fixpoint bytes_of_string (s : string) : list Z :=
  match s with
  | EmptyString => []
  | String c s' => byte_of_ascii c :: bytes_of_string s'
  end.

(** [string(b)] *)
Fixpoint string_of_bytes (b : list Z) : string :=
  match b with
  | [] => EmptyString
  | x :: b' => String (ascii_of_byte x) (string_of_bytes b')
  end.

(** Go functions return a value and an error; exactly one is meaningful. *)
Inductive result (E A : Type) : Type :=
| Ok (a : A)
| Err (e : E).
Arguments Ok {E A} a.
Arguments Err {E A} e.

(** ** crypto/md5 (RFC 1321) *)

Module MD5.

Definition mask32 : Z := 0xffffffff.
Definition add32 (a b : Z) : Z := (a + b) mod 2 ^ 32.
Definition not32 (a : Z) : Z := Z.lxor a mask32.
Definition rotl32 (x c : Z) : Z :=
  Z.lor (Z.land (Z.shiftl x c) mask32) (Z.shiftr x (32 - c)).

(** The sine table: [floor (2^32 * |sin (i + 1)|)]. *)
Definition T : list Z :=
  [ 0xd76aa478; 0xe8c7b756; 0x242070db; 0xc1bdceee;
    0xf57c0faf; 0x4787c62a; 0xa8304613; 0xfd469501;
    0x698098d8; 0x8b44f7af; 0xffff5bb1; 0x895cd7be;
    0x6b901122; 0xfd987193; 0xa679438e; 0x49b40821;
    0xf61e2562; 0xc040b340; 0x265e5a51; 0xe9b6c7aa;
    0xd62f105d; 0x02441453; 0xd8a1e681; 0xe7d3fbc8;
    0x21e1cde6; 0xc33707d6; 0xf4d50d87; 0x455a14ed;
    0xa9e3e905; 0xfcefa3f8; 0x676f02d9; 0x8d2a4c8a;
    0xfffa3942; 0x8771f681; 0x6d9d6122; 0xfde5380c;
    0xa4beea44; 0x4bdecfa9; 0xf6bb4b60; 0xbebfbc70;
    0x289b7ec6; 0xeaa127fa; 0xd4ef3085; 0x04881d05;
    0xd9d4d039; 0xe6db99e5; 0x1fa27cf8; 0xc4ac5665;
    0xf4292244; 0x432aff97; 0xab9423a7; 0xfc93a039;
    0x655b59c3; 0x8f0ccc92; 0xffeff47d; 0x85845dd1;
    0x6fa87e4f; 0xfe2ce6e0; 0xa3014314; 0x4e0811a1;
    0xf7537e82; 0xbd3af235; 0x2ad7d2bb; 0xeb86d391 ].

(** Per-step left rotations. *)
Definition shifts : list Z :=
  [ 7; 12; 17; 22; 7; 12; 17; 22; 7; 12; 17; 22; 7; 12; 17; 22;
    5; 9; 14; 20; 5; 9; 14; 20; 5; 9; 14; 20; 5; 9; 14; 20;
    4; 11; 16; 23; 4; 11; 16; 23; 4; 11; 16; 23; 4; 11; 16; 23;
    6; 10; 15; 21; 6; 10; 15; 21; 6; 10; 15; 21; 6; 10; 15; 21 ].

(** The four working registers. *)
Record digest := Digest4 { rA : Z; rB : Z; rC : Z; rD : Z }.

Definition init : digest :=
  Digest4 0x67452301 0xefcdab89 0x98badcfe 0x10325476.

(** The round function of step [i] and the index of the message word it
    consumes. *)
Definition mix (i : nat) (b c d : Z) : Z * nat :=
  if (i <? 16)%nat then
    (Z.lor (Z.land b c) (Z.land (not32 b) d), i)
  else if (i <? 32)%nat then
    (Z.lor (Z.land d b) (Z.land (not32 d) c), ((5 * i + 1) mod 16)%nat)
  else if (i <? 48)%nat then
    (Z.lxor (Z.lxor b c) d, ((3 * i + 5) mod 16)%nat)
  else
    (Z.lxor c (Z.lor b (not32 d)), ((7 * i) mod 16)%nat).

Definition step (M : list Z) (st : digest) (i : nat) : digest :=
  let '(f, g) := mix i (rB st) (rC st) (rD st) in
  let f' := add32 (add32 (add32 f (rA st)) (nth i T 0)) (nth g M 0) in
  Digest4 (rD st) (add32 (rB st) (rotl32 f' (nth i shifts 0))) (rB st) (rC st).

(** Little-endian decoding of a block into 32-bit words. *)
Fixpoint words (b : list Z) : list Z :=
  match b with
  | b0 :: b1 :: b2 :: b3 :: rest =>
      (b0 + Z.shiftl b1 8 + Z.shiftl b2 16 + Z.shiftl b3 24) :: words rest
  | _ => []
  end.

Definition block (st : digest) (blk : list Z) : digest :=
  let M := words blk in
  let r := fold_left (step M) (seq 0 64) st in
  Digest4 (add32 (rA st) (rA r)) (add32 (rB st) (rB r))
          (add32 (rC st) (rC r)) (add32 (rD st) (rD r)).

(** Little-endian encoding of [x] on [n] bytes. *)
Fixpoint le_bytes (n : nat) (x : Z) : list Z :=
  match n with
  | O => []
  | S n' => (x mod 256) :: le_bytes n' (x / 256)
  end.

(** Message padding: a [0x80] byte, zeros up to 56 modulo 64, then the
    bit length on 64 bits. *)
Definition pad (msg : list Z) : list Z :=
  let len := Z.of_nat (length msg) in
  msg ++ [0x80] ++ repeat 0 (Z.to_nat ((55 - len) mod 64))
      ++ le_bytes 8 ((8 * len) mod 2 ^ 64).

Fixpoint blocks (n : nat) (st : digest) (data : list Z) : digest :=
  match n with
  | O => st
  | S n' => blocks n' (block st (take 64 data)) (drop 64 data)
  end.

(** [md5.Sum(data)]: the 16-byte digest. *)
Definition Sum (data : list Z) : list Z :=
  let p := pad data in
  let r := blocks (length p / 64) init p in
  le_bytes 4 (rA r) ++ le_bytes 4 (rB r) ++ le_bytes 4 (rC r) ++ le_bytes 4 (rD r).

End MD5.

(** ** encoding/hex and encoding/base64 *)

Module Hex.

Definition hextable : string := "0123456789abcdef".

Definition digit (n : Z) : ascii :=
  match String.get (Z.to_nat n) hextable with
  | Some c => c
  | None => "0"%char
  end.

(** [hex.EncodeToString] *)
Fixpoint EncodeToString (src : list Z) : string :=
  match src with
  | [] => EmptyString
  | b :: rest =>
      String (digit (Z.shiftr b 4)) (String (digit (Z.land b 0x0f)) (EncodeToString rest))
  end.

End Hex.

Module Base64.

Definition encodeStd : string :=
  "ABCDEFGHIJKLMNOPQRSTUVWXYZabcdefghijklmnopqrstuvwxyz0123456789+/".

Definition sym (n : Z) : ascii :=
  match String.get (Z.to_nat n) encodeStd with
  | Some c => c
  | None => "="%char
  end.

(** [base64.StdEncoding.EncodeToString]: three bytes give four symbols,
    a final group of one or two bytes is padded with ['=']. *)
Fixpoint EncodeToString (src : list Z) : string :=
  match src with
  | [] => EmptyString
  | [b0] =>
      let v := Z.shiftl b0 16 in
      String (sym (Z.land (Z.shiftr v 18) 0x3f))
        (String (sym (Z.land (Z.shiftr v 12) 0x3f)) "==")
  | [b0; b1] =>
      let v := Z.lor (Z.shiftl b0 16) (Z.shiftl b1 8) in
      String (sym (Z.land (Z.shiftr v 18) 0x3f))
        (String (sym (Z.land (Z.shiftr v 12) 0x3f))
           (String (sym (Z.land (Z.shiftr v 6) 0x3f)) "="))
  | b0 :: b1 :: b2 :: rest =>
      let v := Z.lor (Z.lor (Z.shiftl b0 16) (Z.shiftl b1 8)) b2 in
      String (sym (Z.land (Z.shiftr v 18) 0x3f))
        (String (sym (Z.land (Z.shiftr v 12) 0x3f))
           (String (sym (Z.land (Z.shiftr v 6) 0x3f))
              (String (sym (Z.land v 0x3f)) (EncodeToString rest))))
  end.

End Base64.

(** ** unicode/utf8 *)

Module Utf8.

Definition RuneError : Z := 0xFFFD.
Definition RuneSelf : Z := 0x80.
Definition MaxRune : Z := 0x10FFFF.
Definition UTFMax : nat := 4.

Definition between (lo hi x : Z) : bool := (lo <=? x) && (x <=? hi).

(** Continuation bytes are [10xxxxxx]; [RuneStart] is its negation. *)
Definition cont (b : Z) : bool := between 0x80 0xBF b.
Definition RuneStart (b : Z) : bool := negb (Z.land b 0xC0 =? 0x80).

(** For a leading byte: the length of the sequence and the range allowed
    for the second byte ([first] and [acceptRanges] of the library);
    [None] for a byte that cannot start a multi-byte sequence. *)
Definition first (b0 : Z) : option (nat * Z * Z) :=
  if between 0xC2 0xDF b0 then Some (2%nat, 0x80, 0xBF)
  else if b0 =? 0xE0 then Some (3%nat, 0xA0, 0xBF)
  else if between 0xE1 0xEC b0 then Some (3%nat, 0x80, 0xBF)
  else if b0 =? 0xED then Some (3%nat, 0x80, 0x9F)
  else if between 0xEE 0xEF b0 then Some (3%nat, 0x80, 0xBF)
  else if b0 =? 0xF0 then Some (4%nat, 0x90, 0xBF)
  else if between 0xF1 0xF3 b0 then Some (4%nat, 0x80, 0xBF)
  else if b0 =? 0xF4 then Some (4%nat, 0x80, 0x8F)
  else None.

(** [utf8.DecodeRuneInString]: the first rune of [s] and its width; an
    invalid or truncated sequence gives [(RuneError, 1)], the empty
    string [(RuneError, 0)]. *)
Definition DecodeRune (s : list Z) : Z * nat :=
  match s with
  | [] => (RuneError, 0%nat)
  | b0 :: t =>
      if b0 <? RuneSelf then (b0, 1%nat)
      else
        match first b0 with
        | None => (RuneError, 1%nat)
        | Some (sz, lo, hi) =>
            match t with
            | [] => (RuneError, 1%nat)
            | b1 :: t1 =>
                if negb (between lo hi b1) then (RuneError, 1%nat)
                else if (sz <=? 2)%nat then
                  (Z.lor (Z.shiftl (Z.land b0 0x1F) 6) (Z.land b1 0x3F), 2%nat)
                else
                  match t1 with
                  | [] => (RuneError, 1%nat)
                  | b2 :: t2 =>
                      if negb (cont b2) then (RuneError, 1%nat)
                      else if (sz <=? 3)%nat then
                        (Z.lor (Z.lor (Z.shiftl (Z.land b0 0x0F) 12)
                                      (Z.shiftl (Z.land b1 0x3F) 6))
                               (Z.land b2 0x3F), 3%nat)
                      else
                        match t2 with
                        | [] => (RuneError, 1%nat)
                        | b3 :: _ =>
                            if negb (cont b3) then (RuneError, 1%nat)
                            else
                              (Z.lor (Z.lor (Z.lor (Z.shiftl (Z.land b0 0x07) 18)
                                                   (Z.shiftl (Z.land b1 0x3F) 12))
                                            (Z.shiftl (Z.land b2 0x3F) 6))
                                     (Z.land b3 0x3F), 4%nat)
                        end
                  end
            end
        end
  end.

(** Index of the first rune start found going back from [start], looking
    at no more than [n] bytes; [None] when the search leaves the window. *)
Fixpoint back_to_start (n : nat) (s : list Z) (start : nat) : option nat :=
  match n with
  | O => None
  | S n' =>
      match s !! start with
      | Some b =>
          if RuneStart b then Some start
          else match start with
               | O => None
               | S p => back_to_start n' s p
               end
      | None => None
      end
  end.

(** [utf8.DecodeLastRuneInString]: the last rune of [s] and its width. *)
Definition DecodeLastRune (s : list Z) : Z * nat :=
  let e := length s in
  match e with
  | O => (RuneError, 0%nat)
  | S last =>
      let r := nth last s 0 in
      if r <? RuneSelf then (r, 1%nat)
      else
        let lim := (e - UTFMax)%nat in
        let start :=
          match last with
          | O => 0%nat
          | S p =>
              match back_to_start (S p - lim) s p with
              | Some i => i
              | None => Nat.pred lim
              end
          end in
        let '(r', size) := DecodeRune (drop start s) in
        if negb (start + size =? e)%nat then (RuneError, 1%nat) else (r', size)
  end.

Definition ValidRune (r : Z) : bool :=
  between 0 0xD7FF r || between 0xE000 MaxRune r.

(** [utf8.AppendRune]: the UTF-8 encoding of [r]; surrogates and values
    out of range are written as [RuneError]. *)
Definition EncodeRune (r : Z) : list Z :=
  if between 0 0x7F r then [r]
  else if between 0 0x7FF r then
    [Z.lor 0xC0 (Z.shiftr r 6); Z.lor 0x80 (Z.land r 0x3F)]
  else if negb (ValidRune r) then [0xEF; 0xBF; 0xBD]
  else if r <=? 0xFFFF then
    [Z.lor 0xE0 (Z.shiftr r 12);
     Z.lor 0x80 (Z.land (Z.shiftr r 6) 0x3F);
     Z.lor 0x80 (Z.land r 0x3F)]
  else
    [Z.lor 0xF0 (Z.shiftr r 18);
     Z.lor 0x80 (Z.land (Z.shiftr r 12) 0x3F);
     Z.lor 0x80 (Z.land (Z.shiftr r 6) 0x3F);
     Z.lor 0x80 (Z.land r 0x3F)].

(** The runes a [for _, r := range s] loop visits, in order. *)
Fixpoint range_loop (fuel : nat) (s : list Z) : list Z :=
  match fuel with
  | O => []
  | S fuel' =>
      match s with
      | [] => []
      | _ => let '(r, w) := DecodeRune s in r :: range_loop fuel' (drop w s)
      end
  end.

Definition runes (s : string) : list Z :=
  let b := bytes_of_string s in range_loop (length b) b.

(** [utf8.ValidString] *)
Fixpoint valid_loop (fuel : nat) (s : list Z) : bool :=
  match fuel with
  | O => true
  | S fuel' =>
      match s with
      | [] => true
      | b0 :: _ =>
          let '(r, w) := DecodeRune s in
          if (r =? RuneError) && (w =? 1)%nat then false
          else valid_loop fuel' (drop w s)
      end
  end.

Definition ValidString (s : list Z) : bool := valid_loop (length s) s.

End Utf8.

(** ** unicode *)

Module Unicode.

(** [unicode.IsSpace]: the Latin-1 cases, then the [White_Space] table. *)
Definition IsSpace (r : Z) : bool :=
  if Utf8.between 0 0xFF r then
    Utf8.between 0x09 0x0D r || (r =? 0x20) || (r =? 0x85) || (r =? 0xA0)
  else
    (r =? 0x1680) || Utf8.between 0x2000 0x200A r || Utf8.between 0x2028 0x2029 r
    || (r =? 0x202F) || (r =? 0x205F) || (r =? 0x3000).

(** The printable-rune tables of package strconv are not part of this
    repository: the predicate on runes above Latin-1 is a parameter. *)
Class Tables := { isPrintWide : Z -> bool }.

End Unicode.

(** ** strings *)

Module Strings.

(** [strings.HasPrefix] *)
Definition HasPrefix (s prefix : string) : bool := String.prefix prefix s.

(** [asciiSpace] *)
Definition asciiSpace (c : Z) : bool := Utf8.between 0x09 0x0D c || (c =? 0x20).

(** [strings.TrimLeftFunc s unicode.IsSpace] *)
Fixpoint trimLeftSpace (fuel : nat) (s : list Z) : list Z :=
  match fuel with
  | O => s
  | S fuel' =>
      match s with
      | [] => []
      | _ =>
          let '(r, w) := Utf8.DecodeRune s in
          if Unicode.IsSpace r then trimLeftSpace fuel' (drop w s) else s
      end
  end.

(** [lastIndexFunc s unicode.IsSpace false] on [s[0:i]]: the index of the
    last rune that is not a space, if any. *)
Fixpoint lastIndexNotSpace (fuel : nat) (s : list Z) (i : nat) : option nat :=
  match fuel with
  | O => None
  | S fuel' =>
      match i with
      | O => None
      | _ =>
          let '(r, size) := Utf8.DecodeLastRune (take i s) in
          let i' := (i - size)%nat in
          if negb (Unicode.IsSpace r) then Some i'
          else lastIndexNotSpace fuel' s i'
      end
  end.

(** [strings.TrimRightFunc s unicode.IsSpace] *)
Definition trimRightSpace (s : list Z) : list Z :=
  match lastIndexNotSpace (length s) s (length s) with
  | Some i =>
      if Utf8.RuneSelf <=? nth i s 0
      then take (i + snd (Utf8.DecodeRune (drop i s))) s
      else take (S i) s
  | None => []
  end.

(** The two scans of the ASCII fast path of [strings.TrimSpace]; each
    stops at the first byte that is not an ASCII space and reports
    whether that byte is outside ASCII. *)
Fixpoint scanLeft (s : list Z) : list Z * bool :=
  match s with
  | [] => ([], false)
  | c :: t =>
      if Utf8.RuneSelf <=? c then (s, true)
      else if asciiSpace c then scanLeft t else (s, false)
  end.

(** [strings.TrimSpace] *)
Definition TrimSpaceBytes (s : list Z) : list Z :=
  match scanLeft s with
  | (s1, true) => trimRightSpace (trimLeftSpace (length s1) s1)
  | (s1, false) =>
      match scanLeft (rev s1) with
      | (r, true) => trimRightSpace (rev r)
      | (r, false) => rev r
      end
  end.

Definition TrimSpace (s : string) : string :=
  string_of_bytes (TrimSpaceBytes (bytes_of_string s)).

(** [strings.Split s sep] for a one-byte separator: the pieces between
    the occurrences of [sep]; always at least one piece. *)
Fixpoint Split (s : string) (sep : ascii) : list string :=
  match s with
  | EmptyString => [EmptyString]
  | String c s' =>
      if Ascii.eqb c sep then EmptyString :: Split s' sep
      else match Split s' sep with
           | h :: t => String c h :: t
           | [] => [String c EmptyString]
           end
  end.

(** [strings.Join] *)
Fixpoint Join (elems : list string) (sep : string) : string :=
  match elems with
  | [] => EmptyString
  | [e] => e
  | e :: rest => e +:+ sep +:+ Join rest sep
  end.

End Strings.

(** ** strconv *)

Module Strconv.

Import Unicode.

Definition hex2 (b : Z) : string :=
  String (Hex.digit (Z.land (Z.shiftr b 4) 0xF)) (String (Hex.digit (Z.land b 0xF)) EmptyString).

(** The hexadecimal digits of [r] from bit [4 * n - 1] down to bit 0. *)
Fixpoint hexdigits (n : nat) (r : Z) : string :=
  match n with
  | O => EmptyString
  | S n' => String (Hex.digit (Z.land (Z.shiftr r (4 * Z.of_nat n')) 0xF)) (hexdigits n' r)
  end.

Definition dquote : ascii := "034"%char.

(** [strconv.IsPrint] *)
Definition IsPrint {U : Tables} (r : Z) : bool :=
  if r <=? 0xFF then
    if Utf8.between 0x20 0x7E r then true
    else if Utf8.between 0xA1 0xFF r then negb (r =? 0xAD)
    else false
  else isPrintWide r.

(** [appendEscapedRune] with a double quote as delimiter (DEL is written
    [\x7f], as current releases of the library do). *)
Definition escapedRune {U : Tables} (r : Z) : string :=
  if (r =? 0x22) || (r =? 0x5C) then String "\" (String (ascii_of_byte r) EmptyString)
  else if IsPrint r then string_of_bytes (Utf8.EncodeRune r)
  else if r =? 0x07 then "\a"
  else if r =? 0x08 then "\b"
  else if r =? 0x0C then "\f"
  else if r =? 0x0A then "\n"
  else if r =? 0x0D then "\r"
  else if r =? 0x09 then "\t"
  else if r =? 0x0B then "\v"
  else if (r <? 0x20) || (r =? 0x7F) then "\x" +:+ hex2 r
  else if negb (Utf8.ValidRune r) then "\u" +:+ hexdigits 4 Utf8.RuneError
  else if r <? 0x10000 then "\u" +:+ hexdigits 4 r
  else "\U" +:+ hexdigits 8 r.

Fixpoint quoteLoop {U : Tables} (fuel : nat) (s : list Z) : string :=
  match fuel with
  | O => EmptyString
  | S fuel' =>
      match s with
      | [] => EmptyString
      | b0 :: _ =>
          let '(r, width) :=
            if Utf8.RuneSelf <=? b0 then Utf8.DecodeRune s else (b0, 1%nat) in
          if (width =? 1)%nat && (r =? Utf8.RuneError)
          then "\x" +:+ hex2 b0 +:+ quoteLoop fuel' (drop width s)
          else escapedRune r +:+ quoteLoop fuel' (drop width s)
      end
  end.

(** [strconv.Quote]: a double-quoted Go string literal for [s]. *)
Definition Quote {U : Tables} (s : string) : string :=
  let b := bytes_of_string s in
  String dquote (quoteLoop (length b) b +:+ String dquote EmptyString).

(** [unhex] *)
Definition unhex (b : Z) : option Z :=
  if Utf8.between 0x30 0x39 b then Some (b - 0x30)
  else if Utf8.between 0x61 0x66 b then Some (b - 0x61 + 10)
  else if Utf8.between 0x41 0x46 b then Some (b - 0x41 + 10)
  else None.

Fixpoint hexvalue (n : nat) (acc : Z) (s : list Z) : option (Z * list Z) :=
  match n with
  | O => Some (acc, s)
  | S n' =>
      match s with
      | [] => None
      | b :: t =>
          match unhex b with
          | Some x => hexvalue n' (Z.lor (Z.shiftl acc 4) x) t
          | None => None
          end
      end
  end.

(** [strconv.UnquoteChar]: the first character or escape sequence of
    [s], whether it has to be written as UTF-8, and the rest of [s];
    [None] stands for [ErrSyntax]. *)
Definition UnquoteChar (s : list Z) (quote : Z) : option (Z * bool * list Z) :=
  match s with
  | [] => None
  | c :: t =>
      if (c =? quote) && ((quote =? 0x27) || (quote =? 0x22)) then None
      else if Utf8.RuneSelf <=? c then
        let '(r, size) := Utf8.DecodeRune s in Some (r, true, drop size s)
      else if negb (c =? 0x5C) then Some (c, false, t)
      else
        match t with
        | [] => None
        | e :: s2 =>
            if e =? 0x61 then Some (0x07, false, s2)
            else if e =? 0x62 then Some (0x08, false, s2)
            else if e =? 0x66 then Some (0x0C, false, s2)
            else if e =? 0x6E then Some (0x0A, false, s2)
            else if e =? 0x72 then Some (0x0D, false, s2)
            else if e =? 0x74 then Some (0x09, false, s2)
            else if e =? 0x76 then Some (0x0B, false, s2)
            else if e =? 0x78 then
              match hexvalue 2 0 s2 with
              | Some (v, s3) => Some (v, false, s3)
              | None => None
              end
            else if (e =? 0x75) || (e =? 0x55) then
              match hexvalue (if e =? 0x75 then 4 else 8) 0 s2 with
              | Some (v, s3) => if Utf8.ValidRune v then Some (v, true, s3) else None
              | None => None
              end
            else if Utf8.between 0x30 0x37 e then
              match s2 with
              | d1 :: d2 :: s3 =>
                  if Utf8.between 0x30 0x37 d1 && Utf8.between 0x30 0x37 d2 then
                    let v := Z.lor (Z.shiftl (Z.lor (Z.shiftl (e - 0x30) 3) (d1 - 0x30)) 3)
                                   (d2 - 0x30) in
                    if 255 <? v then None else Some (v, false, s3)
                  else None
              | _ => None
              end
            else if e =? 0x5C then Some (0x5C, false, s2)
            else if (e =? 0x27) || (e =? 0x22) then
              if negb (e =? quote) then None else Some (e, false, s2)
            else None
        end
  end.

Fixpoint unquoteLoop (fuel : nat) (s : list Z) (quote : Z) : option (list Z) :=
  match s with
  | [] => Some []
  | _ =>
      match fuel with
      | O => None
      | S fuel' =>
          match UnquoteChar s quote with
          | None => None
          | Some (c, multibyte, ss) =>
              let out := if (c <? Utf8.RuneSelf) || negb multibyte
                         then [c] else Utf8.EncodeRune c in
              if (quote =? 0x27) && negb (length ss =? 0)%nat then None
              else option_map (app out) (unquoteLoop fuel' ss quote)
          end
      end
  end.

Definition contains (s : list Z) (c : Z) : bool := existsb (Z.eqb c) s.

(** [strconv.Unquote]: the string a quoted Go literal denotes, [None] for
    [ErrSyntax].  The library returns the empty string along with every
    error. *)
Definition UnquoteBytes (s : list Z) : option (list Z) :=
  match s with
  | [] | [_] => None
  | quote :: rest =>
      if negb (quote =? List.last rest 0) then None
      else
        let s' := removelast rest in
        if quote =? 0x60 then
          if contains s' 0x60 then None
          else Some (filter (fun b => negb (b =? 0x0D)) s')
        else if negb ((quote =? 0x22) || (quote =? 0x27)) then None
        else if contains s' 0x0A then None
        else if negb (contains s' 0x5C) && negb (contains s' quote)
                && (if quote =? 0x22 then Utf8.ValidString s'
                    else let '(r, size) := Utf8.DecodeRune s' in
                         (size =? length s')%nat
                         && negb ((r =? Utf8.RuneError) && (size =? 1)%nat))
        then Some s'
        else unquoteLoop (length s') s' quote
  end.

Definition Unquote (s : string) : result unit string :=
  match UnquoteBytes (bytes_of_string s) with
  | Some b => Ok (string_of_bytes b)
  | None => Err tt
  end.

End Strconv.

(** ** fmt *)

Module Fmt.

(** An operand of [Sprintf]: the package passes strings and [uint]s. *)
Inductive operand :=
| VString (s : string)
| VUint (n : Z).

Fixpoint hexacc (fuel : nat) (n : Z) (acc : string) : string :=
  match fuel with
  | O => acc
  | S fuel' =>
      if n <? 16 then String (Hex.digit n) acc
      else hexacc fuel' (n / 16) (String (Hex.digit (n mod 16)) acc)
  end.

(** The lowercase hexadecimal digits of a [uint], without padding. *)
Definition hex (n : Z) : string :=
  hexacc (S (Z.to_nat (Z.log2 n))) n EmptyString.

Fixpoint zeros (n : nat) : string :=
  match n with
  | O => EmptyString
  | S n' => String "0" (zeros n')
  end.

(** [%08x] *)
Definition pad08x (n : Z) : string :=
  let d := hex n in zeros (8 - String.length d) +:+ d.

(** The decimal digits of a [uint]. *)
Fixpoint decacc (fuel : nat) (n : Z) (acc : string) : string :=
  match fuel with
  | O => acc
  | S fuel' =>
      if n <? 10 then String (Hex.digit n) acc
      else decacc fuel' (n / 10) (String (Hex.digit (n mod 10)) acc)
  end.

Definition dec (n : Z) : string :=
  decacc (S (Z.to_nat (Z.log2 n))) n EmptyString.

(** What [Sprintf] appends for the operands the format has not used:
    nothing when there is none, else [%!(EXTRA type=value, ...)]. *)
Definition extra_operand (x : operand) : string :=
  match x with
  | VString s => "string=" +:+ s
  | VUint n => "uint=" +:+ dec n
  end.

Definition extra (a : list operand) : string :=
  match a with
  | [] => EmptyString
  | _ => "%!(EXTRA " +:+ Strings.Join (map extra_operand a) ", " +:+ ")"
  end.

(** [fmt.Sprintf] for the directives of this package: [%s] and [%v]
    with a string operand, [%08x] with a [uint] operand.  Ordinary bytes
    are copied; a directive without an operand prints the library's
    [%!verb(MISSING)]; operands left over at the end of the format are
    reported by [extra]; other directives and operand types (never used
    here) are copied without expansion. *)
Fixpoint Sprintf (format : string) (a : list operand) : string :=
  match format with
  | EmptyString => extra a
  | String "%" (String "s" rest) =>
      match a with
      | VString s :: a' => s +:+ Sprintf rest a'
      | _ :: a' => "%s" +:+ Sprintf rest a'
      | [] => "%!s(MISSING)" +:+ Sprintf rest []
      end
  | String "%" (String "v" rest) =>
      match a with
      | VString s :: a' => s +:+ Sprintf rest a'
      | _ :: a' => "%v" +:+ Sprintf rest a'
      | [] => "%!v(MISSING)" +:+ Sprintf rest []
      end
  | String "%" (String "0" (String "8" (String "x" rest))) =>
      match a with
      | VUint n :: a' => pad08x n +:+ Sprintf rest a'
      | _ :: a' => "%08x" +:+ Sprintf rest a'
      | [] => "%!x(MISSING)" +:+ Sprintf rest []
      end
  | String c rest => String c (Sprintf rest a)
  end.

End Fmt.

(** ** Package httpdigest: md5.go *)

Import Fmt.

(** An error is represented by its message; those of the package are
    all made by [fmt.Errorf]. *)
Inductive error := Errorf (msg : string).

Definition md5hex (format : string) (v : list operand) : string :=
  let md5b := MD5.Sum (bytes_of_string (Sprintf format v)) in
  Hex.EncodeToString md5b.

(** [newCnonce]; [buf] is the 16-byte buffer as [rand.Read] filled it. *)
Definition newCnonce (buf : list Z) : string :=
  let str0 := Hex.EncodeToString buf in
  Base64.EncodeToString (bytes_of_string str0).

(** ** Package httpdigest: digest.go *)

Record WWWAuth := mkWWWAuth {
  Realm : string;
  Domain : string;
  Nonce : string;
  Opaque : string;
  Stale : string;
  Algorithm : string;
  Qop : string
}.

Record DigestInput := mkDigestInput {
  Username : string;
  Password : string;
  DigestURI : string;
  NonceCount : Z;
  Cnonce : string;
  Method : string
}.

Definition set_NonceCount (inp : DigestInput) (n : Z) : DigestInput :=
  mkDigestInput (Username inp) (Password inp) (DigestURI inp) n (Cnonce inp) (Method inp).

(** The state of the tokenizer loop of [parseDigest]. *)
Record tokenizer := mkTokenizer {
  state : Z;
  quote : bool;
  backq : Z;
  key : string;
  val : string;
  keys : gmap string string
}.

(** [bytes.Buffer.WriteRune] *)
Definition WriteRune (buf : string) (r : Z) : string :=
  buf +:+ string_of_bytes (Utf8.EncodeRune r).

Definition dquote_string : string := String Strconv.dquote EmptyString.

(** The assignment [keys[...] = ...] that closes a pair; it appears twice
    in [parseDigest], at a separating comma and after the loop.  The
    error of [strconv.Unquote] is dropped and the string it returns with
    an error is empty. *)
Definition store (key val : string) (keys : gmap string string) : gmap string string :=
  if Strings.HasPrefix val dquote_string then
    let v2 := match Strconv.Unquote val with Ok v => v | Err _ => EmptyString end in
    <[Strings.TrimSpace key := v2]> keys
  else
    <[Strings.TrimSpace key := Strings.TrimSpace val]> keys.

(** One iteration of [for _, r := range rawDigest[7:]]. *)
Definition tokenize (t : tokenizer) (r : Z) : tokenizer :=
  if state t =? 0 then
    if r =? 0x3D (* equals sign *) then
      mkTokenizer 1 (quote t) (backq t) (key t) (val t) (keys t)
    else
      mkTokenizer (state t) (quote t) (backq t) (WriteRune (key t) r) (val t) (keys t)
  else if state t =? 1 then
    if r =? 0x22 (* double quote *) then
      let quote' := if backq t mod 2 =? 0 then negb (quote t) else quote t in
      mkTokenizer (state t) quote' 0 (key t) (WriteRune (val t) r) (keys t)
    else if r =? 0x5C (* backslash *) then
      mkTokenizer (state t) (quote t) (backq t + 1) (key t) (WriteRune (val t) r) (keys t)
    else if r =? 0x2C (* comma *) then
      if quote t then
        mkTokenizer (state t) (quote t) (backq t) (key t) (WriteRune (val t) r) (keys t)
      else
        mkTokenizer 0 false 0 EmptyString EmptyString (store (key t) (val t) (keys t))
    else
      mkTokenizer (state t) (quote t) 0 (key t) (WriteRune (val t) r) (keys t)
  else t.

Definition tokenizer_init : tokenizer :=
  mkTokenizer 0 false 0 EmptyString EmptyString ∅.

(** [s[n:]] *)
Fixpoint slice_from (n : nat) (s : string) : string :=
  match n, s with
  | O, _ => s
  | S n', String _ s' => slice_from n' s'
  | S _, EmptyString => EmptyString
  end.

(** The tokenizer after the whole loop. *)
Definition tokenize_all (rawDigest : string) : tokenizer :=
  fold_left tokenize (Utf8.runes (slice_from 7 rawDigest)) tokenizer_init.

Definition parseDigest (rawDigest : string) : gmap string string :=
  let t := tokenize_all rawDigest in
  if negb (String.eqb (key t) EmptyString) then store (key t) (val t) (keys t)
  else keys t.

(** [m[k]] on a [map[string]string]: the zero value for a missing key. *)
Definition index (m : gmap string string) (k : string) : string :=
  default EmptyString (m !! k).

Definition ParseWWWAuthenticate (entry : string) : result error WWWAuth :=
  let entry := Strings.TrimSpace entry in
  if negb (Strings.HasPrefix entry "Digest ") then
    Err (Errorf (Sprintf "bad challenge '%s'" [VString entry]))
  else
    let dkeys := parseDigest entry in
    Ok {| Realm := index dkeys "realm";
          Domain := index dkeys "domain";
          Nonce := index dkeys "nonce";
          Opaque := index dkeys "opaque";
          Stale := index dkeys "stale";
          Algorithm := index dkeys "algorithm";
          Qop := index dkeys "qop" |}.

Section Engine.

Context {U : Unicode.Tables}.

Definition ha1 (a : WWWAuth) (inp : DigestInput) : result error string :=
  if String.eqb (Algorithm a) "" || String.eqb (Algorithm a) "MD5" then
    Ok (md5hex "%s:%s:%s" [VString (Username inp); VString (Realm a); VString (Password inp)])
  else if String.eqb (Algorithm a) "MD5-sess" then
    Ok (md5hex "%s:%s:%08x"
          [VString (md5hex "%s:%s:%s"
                      [VString (Username inp); VString (Realm a); VString (Password inp)]);
           VString (Nonce a); VUint (NonceCount inp)])
  else Err (Errorf (Sprintf "not implemented" [])).

(** [digestAuth]; [rnd] is what [rand.Read] delivers should a client
    nonce have to be generated. *)
Definition digestAuth (rnd : list Z) (a : WWWAuth) (inp : DigestInput) : result error string :=
  match ha1 a inp with
  | Err err => Err err
  | Ok h1 =>
      let h2 := md5hex "%s:%s" [VString (Method inp); VString (DigestURI inp)] in
      let cnonce := Cnonce inp in
      let cnonce := if String.eqb cnonce "" then newCnonce rnd else cnonce in
      let response :=
        md5hex "%s:%s:%08x:%s:%s:%s"
          [VString h1; VString (Nonce a); VUint (NonceCount inp); VString cnonce;
           VString "auth"; VString h2] in
      let rvs : list string := [] in
      let rvs := rvs ++ [Sprintf "username=%v" [VString (Strconv.Quote (Username inp))]] in
      let rvs := rvs ++ [Sprintf "realm=%v" [VString (Strconv.Quote (Realm a))]] in
      let rvs := rvs ++ [Sprintf "nonce=%v" [VString (Strconv.Quote (Nonce a))]] in
      let rvs := rvs ++ [Sprintf "uri=%v" [VString (Strconv.Quote (DigestURI inp))]] in
      let rvs := rvs ++ [Sprintf "cnonce=%v" [VString (Strconv.Quote cnonce)]] in
      let rvs := rvs ++ [Sprintf "nc=%08x" [VUint (NonceCount inp)]] in
      let rvs := rvs ++ [Sprintf "qop=%s" [VString "auth"]] in
      let rvs := rvs ++ [Sprintf "response=%v" [VString (Strconv.Quote response)]] in
      let rvs := rvs ++ [Sprintf "algorithm=%v" [VString (Strconv.Quote (Algorithm a))]] in
      let rvs :=
        if negb (String.eqb (Opaque a) "")
        then rvs ++ [Sprintf "opaque=%v" [VString (Strconv.Quote (Opaque a))]]
        else rvs in
      Ok ("Digest " +:+ Strings.Join rvs ", ")
  end.

(** The loop of [Digest] over the offered qop values. *)
Fixpoint Digest_range (rnd : list Z) (a : WWWAuth) (inp : DigestInput)
    (qopsplit : list string) : result error string :=
  match qopsplit with
  | [] => Err (Errorf (Sprintf "digest not implemented ('%s')" [VString (Qop a)]))
  | qop :: rest =>
      if String.eqb qop "auth" then digestAuth rnd a inp
      else Digest_range rnd a inp rest
  end.

Definition Digest (rnd : list Z) (a : WWWAuth) (inp : DigestInput) : result error string :=
  let inp := if NonceCount inp =? 0 then set_NonceCount inp (NonceCount inp + 1) else inp in
  let qopsplit := Strings.Split (Qop a) "," in
  Digest_range rnd a inp qopsplit.

End Engine.

(** ** net/http: headers, bodies, requests and responses *)

Module Http.

Definition StatusUnauthorized : Z := 401.

(** [validHeaderFieldByte]: the token characters of RFC 7230. *)
Definition validHeaderFieldByte (c : ascii) : bool :=
  let b := byte_of_ascii c in
  Utf8.between 0x30 0x39 b || Utf8.between 0x41 0x5A b || Utf8.between 0x61 0x7A b
  || existsb (Z.eqb b) (bytes_of_string "!#$%&'*+-.^_`|~").

Fixpoint canonical (upper : bool) (s : string) : string :=
  match s with
  | EmptyString => EmptyString
  | String c rest =>
      let b := byte_of_ascii c in
      let b' := if upper && Utf8.between 0x61 0x7A b then b - 0x20
                else if negb upper && Utf8.between 0x41 0x5A b then b + 0x20
                else b in
      String (ascii_of_byte b') (canonical (b' =? 0x2D) rest)
  end.

(** [textproto.CanonicalMIMEHeaderKey]: a key made of token characters
    gets an upper-case letter first and after each dash and lower-case
    letters elsewhere; any other key is returned unchanged. *)
Definition CanonicalMIMEHeaderKey (s : string) : string :=
  if forallb validHeaderFieldByte (list_ascii_of_string s) then canonical true s else s.

(** [http.Header] *)
Abbreviation Header := (gmap string (list string)).

Definition Header_Get (h : Header) (key : string) : string :=
  match h !! CanonicalMIMEHeaderKey key with
  | Some (v :: _) => v
  | _ => EmptyString
  end.

Definition Header_Set (h : Header) (key value : string) : Header :=
  <[CanonicalMIMEHeaderKey key := [value]]> h.

Definition Header_Del (h : Header) (key : string) : Header :=
  delete (CanonicalMIMEHeaderKey key) h.

(** An [io.ReadCloser]: the bytes still to be read, the error (if any)
    that reading meets after them, and the error (if any) of [Close]. *)
Record ReadCloser := mkReadCloser {
  unread : string;
  read_error : option error;
  close_error : option error
}.

(** A non-nil body: the sentinel [http.NoBody] or a reader. *)
Inductive body :=
| NoBody
| Reader (r : ReadCloser).

(** [ioutil.NopCloser] of a buffer holding [data]. *)
Definition NopCloser (data : string) : body := Reader (mkReadCloser data None None).

(** A reader after it was read to its end (or to its error). *)
Definition exhausted (r : ReadCloser) : body :=
  Reader (mkReadCloser EmptyString (read_error r) (close_error r)).

(** [*http.Response] *)
Record Response := mkResponse {
  StatusCode : Z;
  resp_Header : Header;
  resp_Body : body
}.

(** [*url.URL], through the two methods the package calls. *)
Record URL := mkURL {
  Hostname : string;
  RequestURI : string
}.

End Http.

Import Http.

(** ** Package httpdigest: drainbody.go *)

(** [drainBody]: two readers over the bytes of [b]; on failure the first
    is nil and the second is [b] itself. *)
Definition drainBody (b : body) : option body * option body * option error :=
  match b with
  | NoBody => (Some NoBody, Some NoBody, None)
  | Reader r =>
      match read_error r with
      | Some err => (None, Some (exhausted r), Some err)
      | None =>
          match close_error r with
          | Some err => (None, Some (exhausted r), Some err)
          | None => (Some (NopCloser (unread r)), Some (NopCloser (unread r)), None)
          end
      end
  end.

(** ** The cache of the cached transport

    The cache is [github.com/dgraph-io/ristretto], a dependency that is
    not part of this repository.  It is taken as an interface: [Get] may
    update the cache (its counters), [Set] may or may not admit the entry
    and may evict others. *)
Class Cache (C : Type) := {
  cache_Get : C -> string -> option WWWAuth * C;
  cache_Set : C -> string -> WWWAuth -> Z -> C;
  cache_Del : C -> string -> C
}.

(** The one property of the cache the transport relies on: an entry that
    was deleted is not found by the next lookup. *)
Class CacheDel (C : Type) `{Cache C} : Prop :=
  get_after_del : forall (c : C) (k : string), fst (cache_Get (cache_Del c k) k) = None.

(** ** Package httpdigest: transport.go *)

Section Transports.

Context {U : Unicode.Tables}.

(** Everything outside the package: the network and the servers, the
    state of the client-nonce generator, the source of random bytes. *)
Context {World : Type}.

(** [*http.Request]; [GetBody] is nil or a function returning a new
    reader over the body and an error. *)
Record Request := mkRequest {
  req_Method : string;
  req_URL : URL;
  req_Header : Header;
  req_Body : option body;
  GetBody : option (World -> option body * option error * World)
}.

Definition set_Header (r : Request) (h : Header) : Request :=
  mkRequest (req_Method r) (req_URL r) h (req_Body r) (GetBody r).

Definition set_Body (r : Request) (b : option body) : Request :=
  mkRequest (req_Method r) (req_URL r) (req_Header r) b (GetBody r).

(** [http.RoundTripper]: one request, one response or an error.  The
    call may read and close the body of the request; the second component
    is the state it leaves that reader in (of no use for a request
    without body). *)
Definition RoundTripper : Type :=
  World -> Request -> World * body * result error Response.

(** [crypto/rand.Read] on a 16-byte buffer. *)
Context (rand_Read : World -> list Z * World).

Record Transport := mkTransport {
  t_Username : string;
  t_Password : string;
  t_Transport : option RoundTripper;
  CnonceGen : option (World -> string * World)
}.

(** The memory a call works on: the outside world, the request [req]
    points to, and the cache [t.authCache] points to (nil for a plain
    [Transport]). *)
Record Mem (C : Type) := mkMem {
  world : World;
  req : Request;
  authCache : option C
}.
Arguments mkMem {C}.
Arguments world {C}.
Arguments req {C}.
Arguments authCache {C}.

(** Computations that read and write the memory and may return an error. *)
Definition M (C A : Type) : Type := Mem C -> Mem C * result error A.

Definition ret {C A} (a : A) : M C A := fun m => (m, Ok a).
Definition fail {C A} (e : error) : M C A := fun m => (m, Err e).
Definition bind {C A B} (x : M C A) (k : A -> M C B) : M C B :=
  fun m => match x m with
           | (m', Ok a) => k a m'
           | (m', Err e) => (m', Err e)
           end.

Notation "'do' x <- c ; k" := (bind c (fun x => k))
  (at level 10, x pattern, c at level 100, k at level 200).

Definition get_req {C} : M C Request := fun m => (m, Ok (req m)).
Definition put_req {C} (r : Request) : M C unit :=
  fun m => (mkMem (world m) r (authCache m), Ok tt).

(** Lift a function of the outside world. *)
Definition in_world {C A} (f : World -> A * World) : M C A :=
  fun m => let '(a, w) := f (world m) in (mkMem w (req m) (authCache m), Ok a).

(** [rt.RoundTrip(r)] for a request [r] other than [req]. *)
Definition send {C} (rt : RoundTripper) (r : Request) : M C Response :=
  fun m => let '(w, _, res) := rt (world m) r in (mkMem w (req m) (authCache m), res).

(** [rt.RoundTrip(req)]: the body of [req] is the one consumed. *)
Definition send_req {C} (rt : RoundTripper) : M C Response :=
  fun m => let '(w, b, res) := rt (world m) (req m) in
           (mkMem w (set_Body (req m) (option_map (fun _ => b) (req_Body (req m)))) (authCache m),
            res).

(** [chal.Digest(inp)]; random bytes are drawn only when the engine
    generates the client nonce. *)
Definition chal_Digest {C} (chal : WWWAuth) (inp : DigestInput) : M C string :=
  fun m =>
    let '(rnd, w) := rand_Read (world m) in
    match Digest rnd chal inp with
    | Ok authh =>
        if String.eqb (Cnonce inp) "" then (mkMem w (req m) (authCache m), Ok authh)
        else (m, Ok authh)
    | Err e => (m, Err e)
    end.

(** [io.Copy(ioutil.Discard, resp.Body); resp.Body.Close()] *)
Definition discard (resp : Response) : Response :=
  match resp_Body resp with
  | NoBody => resp
  | Reader r => mkResponse (StatusCode resp) (resp_Header resp) (exhausted r)
  end.

(** [doAuthRequest]; [Debug] is false. *)
Definition doAuthRequest {C} (rt : RoundTripper) : M C Response :=
  do r <- get_req;
  let authReq := mkRequest (req_Method r) (req_URL r) (req_Header r) (req_Body r) (GetBody r) in
  do authReq <-
    match req_Body r with
    | Some b =>
        match GetBody r with
        | Some getBody =>
            do (b', err) <- in_world getBody;
            match err with
            | Some e => fail e
            | None => ret (set_Body authReq b')
            end
        | None =>
            let '(save, body2, err) := drainBody b in
            do _ <- put_req (set_Body r body2);
            match err with
            | Some e => fail e
            | None => ret (set_Body authReq save)
            end
        end
    | None => ret authReq
    end;
  do resp <- send rt authReq;
  if negb (StatusCode resp =? StatusUnauthorized) then ret resp
  else ret (discard resp).

(** The operand of [chal.Digest] both transports build. *)
Definition digestInput (t : Transport) (r : Request) (cnonce : string) : DigestInput :=
  {| DigestURI := RequestURI (req_URL r);
     Method := req_Method r;
     Cnonce := cnonce;
     Username := t_Username t;
     Password := t_Password t;
     NonceCount := 0 |}.

(** [Transport.RoundTrip]; [Debug] is false. *)
Definition RoundTrip {C} (t : Transport) : M C Response :=
  match t_Transport t with
  | None => fail (Errorf (Sprintf "underlying transport is nil" []))
  | Some rt =>
      match CnonceGen t with
      | None => fail (Errorf (Sprintf "cnounce generator is nil" []))
      | Some gen =>
          do resp <- doAuthRequest rt;
          do chal <- (fun m => (m, ParseWWWAuthenticate (Header_Get (resp_Header resp) "WWW-Authenticate")));
          do r <- get_req;
          do cnonce <- in_world gen;
          do authh <- chal_Digest chal (digestInput t r cnonce);
          do r <- get_req;
          do _ <- put_req (set_Header r (Header_Set (req_Header r) "Authorization" authh));
          do resp <- send_req rt;
          ret resp
      end
  end.

(** What one pass through the body of [CachedTransport.RoundTrip]
    ends with: a response to return, or the call [t.RoundTrip(req)]. *)
Inductive pass :=
| Return (resp : Response)
| Recurse.

Definition cacheKey (t : Transport) (r : Request) : string :=
  Strings.Join [Hostname (req_URL r); t_Username t; t_Password t] ",".

(** [t.authCache.Get(cacheKey)], guarded by [t.authCache != nil]. *)
Definition authCache_Get {C} `{Cache C} (k : string) : M C (option WWWAuth) :=
  fun m =>
    match authCache m with
    | Some c => let '(v, c') := cache_Get c k in (mkMem (world m) (req m) (Some c'), Ok v)
    | None => (m, Ok None)
    end.

(** [t.authCache.Set(cacheKey, chal, 1)], guarded by [t.authCache != nil]. *)
Definition authCache_Set {C} `{Cache C} (k : string) (chal : WWWAuth) : M C unit :=
  fun m =>
    match authCache m with
    | Some c => (mkMem (world m) (req m) (Some (cache_Set c k chal 1)), Ok tt)
    | None => (m, Ok tt)
    end.

(** [t.authCache.Del(cacheKey)] *)
Definition authCache_Del {C} `{Cache C} (k : string) : M C unit :=
  fun m =>
    match authCache m with
    | Some c => (mkMem (world m) (req m) (Some (cache_Del c k)), Ok tt)
    | None => (m, Ok tt)
    end.

(** One pass through [CachedTransport.RoundTrip]; [Debug] is false. *)
Definition CachedRoundTrip_pass {C} `{Cache C} (t : Transport) : M C pass :=
  match t_Transport t with
  | None => fail (Errorf (Sprintf "underlying transport is nil" []))
  | Some rt =>
      match CnonceGen t with
      | None => fail (Errorf (Sprintf "cnounce generator is nil" []))
      | Some gen =>
          do r <- get_req;
          let cacheKey := cacheKey t r in
          do found <- authCache_Get cacheKey;
          let cached := match found with Some _ => true | None => false end in
          do chal <-
            match found with
            | Some chal => ret chal
            | None =>
                do resp <- doAuthRequest rt;
                do chal <- (fun m => (m, ParseWWWAuthenticate
                                           (Header_Get (resp_Header resp) "WWW-Authenticate")));
                do _ <- authCache_Set cacheKey chal;
                ret chal
            end;
          do r <- get_req;
          do cnonce <- in_world gen;
          do authh <- chal_Digest chal (digestInput t r cnonce);
          do r <- get_req;
          do _ <- put_req (set_Header r (Header_Set (req_Header r) "Authorization" authh));
          do resp <- send_req rt;
          if (StatusCode resp =? StatusUnauthorized) && cached then
            do _ <- authCache_Del cacheKey;
            do r <- get_req;
            do _ <- put_req (set_Header r (Header_Del (req_Header r) "Authorization"));
            do r <- get_req;
            do _ <-
              match req_Body r, GetBody r with
              | Some _, Some getBody =>
                  do (b, err) <- in_world getBody;
                  do _ <- put_req (set_Body r b);
                  match err with
                  | Some e => fail e
                  | None => ret tt
                  end
              | _, _ => ret tt
              end;
            ret Recurse
          else ret (Return resp)
      end
  end.

(** [CachedTransport.RoundTrip]: the pass above, repeated at the
    recursive call; [fuel] bounds the depth of the recursion. *)
Fixpoint CachedRoundTrip {C} `{Cache C} (fuel : nat) (t : Transport) (m : Mem C)
    : option (Mem C * result error Response) :=
  match fuel with
  | O => None
  | S fuel' =>
      match CachedRoundTrip_pass t m with
      | (m', Ok (Return resp)) => Some (m', Ok resp)
      | (m', Ok Recurse) => CachedRoundTrip fuel' t m'
      | (m', Err e) => Some (m', Err e)
      end
  end.

End Transports.

Arguments Request : clear implicits.
Arguments RoundTripper : clear implicits.
Arguments Transport : clear implicits.
Arguments Mem : clear implicits.
Arguments M : clear implicits.
Arguments mkMem {World C}.
Arguments world {World C}.
Arguments req {World C}.
Arguments authCache {World C}.

(** [New]; [DefaultTransport] stands for [http.DefaultTransport]. *)
Definition New {World : Type} (username password : string)
    (DefaultTransport : RoundTripper World) : Transport World :=
  {| t_Username := username;
     t_Password := password;
     t_Transport := Some DefaultTransport;
     CnonceGen := Some (fun w => (EmptyString, w)) |}.

(** ** Package httpdigest: transport.go, earlier revisions

    The repository keeps two other revisions of transport.go.  In one,
    [RoundTrip] does everything itself and returns the first response
    when its status is not 401.  In the other, the first request is made
    by [doAuthRequest] (the function of the current revision) and the
    rest of [RoundTrip] is in [extractResponseAuth] and
    [applyRequestAuth]. *)

Module Original.
Section Transports.

Context {U : Unicode.Tables} {World : Type} (rand_Read : World -> list Z * World).

Notation "'do' x <- c ; k" := (bind c (fun x => k))
  (at level 10, x pattern, c at level 100, k at level 200).

(** [Transport.RoundTrip]; [Debug] is false.  The clone [req2] is a
    request of its own, with a header map of its own; the first round
    trip is made with [req], the second with [req2]. *)
Definition RoundTrip {C} (t : Transport World) : M World C Response :=
  match t_Transport t with
  | None => fail (Errorf (Sprintf "underlying transport is nil" []))
  | Some rt =>
      match CnonceGen t with
      | None => fail (Errorf (Sprintf "cnounce generator is nil" []))
      | Some gen =>
          do r <- get_req;
          let req2 := mkRequest (req_Method r) (req_URL r) (req_Header r) (req_Body r) (GetBody r) in
          do req2 <-
            match req_Body r with
            | Some b =>
                match GetBody r with
                | Some getBody =>
                    do (b', err) <- in_world getBody;
                    match err with
                    | Some e => fail e
                    | None => ret (set_Body req2 b')
                    end
                | None =>
                    let '(save, body2, err) := drainBody b in
                    do _ <- put_req (set_Body r body2);
                    match err with
                    | Some e => fail e
                    | None => ret (set_Body req2 save)
                    end
                end
            | None => ret req2
            end;
          do resp <- send_req rt;
          if negb (StatusCode resp =? StatusUnauthorized) then ret resp
          else
            let resp := discard resp in
            do challengeh <- (fun m => (m, ParseWWWAuthenticate
                                             (Header_Get (resp_Header resp) "WWW-Authenticate")));
            do r <- get_req;
            do cnonce <- in_world gen;
            do authh <- chal_Digest rand_Read challengeh (digestInput t r cnonce);
            let req2 := set_Header req2 (Header_Set (req_Header req2) "Authorization" authh) in
            do resp2 <- send rt req2;
            ret resp2
      end
  end.

End Transports.
End Original.

Module Helpers.
Section Transports.

Context {U : Unicode.Tables} {World : Type} (rand_Read : World -> list Z * World).

Notation "'do' x <- c ; k" := (bind c (fun x => k))
  (at level 10, x pattern, c at level 100, k at level 200).

(** [applyRequestAuth], called with the caller's request. *)
Definition applyRequestAuth {C} (authh : string) : M World C unit :=
  do r <- get_req;
  put_req (set_Header r (Header_Set (req_Header r) "Authorization" authh)).

(** [extractResponseAuth], called with the caller's request; [gen] is
    [t.CnonceGen], which [RoundTrip] has found not to be nil. *)
Definition extractResponseAuth {C} (t : Transport World) (gen : World -> string * World)
    (authResp : Response) : M World C string :=
  do challengeh <- (fun m => (m, ParseWWWAuthenticate
                                   (Header_Get (resp_Header authResp) "WWW-Authenticate")));
  do authReq <- get_req;
  do cnonce <- in_world gen;
  do authh <- chal_Digest rand_Read challengeh (digestInput t authReq cnonce);
  ret authh.

(** [Transport.RoundTrip]; [Debug] is false. *)
Definition RoundTrip {C} (t : Transport World) : M World C Response :=
  match t_Transport t with
  | None => fail (Errorf (Sprintf "underlying transport is nil" []))
  | Some rt =>
      match CnonceGen t with
      | None => fail (Errorf (Sprintf "cnounce generator is nil" []))
      | Some gen =>
          do resp <- doAuthRequest rt;
          do authh <- extractResponseAuth t gen resp;
          do _ <- applyRequestAuth authh;
          do resp <- send_req rt;
          ret resp
      end
  end.

End Transports.
End Helpers.

(* ===================================================================== *)
(** * Part II. Vocabulary of the specification and example data          *)
(* ===================================================================== *)

(** ** Vocabulary of the specification *)

(** [hex(MD5(s))] *)
Definition hexmd5 (s : string) : string :=
  Hex.EncodeToString (MD5.Sum (bytes_of_string s)).

(** The error taxonomy of the specification, as the messages the code
    builds. *)
Definition MalformedChallenge (entry : string) : error :=
  Errorf ("bad challenge '" +:+ entry +:+ "'").
Definition UnsupportedQop (qop : string) : error :=
  Errorf ("digest not implemented ('" +:+ qop +:+ "')").
Definition UnsupportedAlgorithm : error := Errorf "not implemented".

(** Hexadecimal output uses the digits 0-9 and a-f only. *)
Definition lower_hex (c : ascii) : bool :=
  let b := byte_of_ascii c in Utf8.between 0x30 0x39 b || Utf8.between 0x61 0x66 b.

(** Bytes that [strconv.Quote] copies unchanged: printable ASCII other
    than the double quote and the backslash. *)
Definition plain (c : ascii) : bool :=
  let b := byte_of_ascii c in
  Utf8.between 0x20 0x7E b && negb (b =? 0x22) && negb (b =? 0x5C).

(** The client nonce [digestAuth] works with. *)
Definition client_nonce (rnd : list Z) (inp : DigestInput) : string :=
  if String.eqb (Cnonce inp) "" then newCnonce rnd else Cnonce inp.

(** The request context after the first statement of [Digest]. *)
Definition counted (inp : DigestInput) : DigestInput :=
  if NonceCount inp =? 0 then set_NonceCount inp 1 else inp.

(** HA2 and the response hash in the words of the specification. *)
Definition HA2_spec (inp : DigestInput) : string :=
  hexmd5 (Method inp +:+ ":" +:+ DigestURI inp).

Definition response_spec (h1 : string) (a : WWWAuth) (inp : DigestInput) (cnonce : string) : string :=
  hexmd5 (h1 +:+ ":" +:+ Nonce a +:+ ":" +:+ pad08x (NonceCount inp) +:+ ":" +:+ cnonce
          +:+ ":auth:" +:+ HA2_spec inp).

(** The number of backslashes that immediately precede the next rune,
    given the runes read so far. *)
Fixpoint leading_backslashes (rs : list Z) : nat :=
  match rs with
  | r :: rest => if r =? 0x5C then S (leading_backslashes rest) else 0%nat
  | [] => 0%nat
  end.

Definition trailing_backslashes (rs : list Z) : nat := leading_backslashes (rev rs).

(** The tokenizer after the runes [rs] of a challenge (scheme removed). *)
Definition tokenizer_after (rs : string) : tokenizer :=
  fold_left tokenize (Utf8.runes rs) tokenizer_init.

Section TransportVocabulary.

Context {World : Type}.

(** The value of [cached] in a pass that starts in memory [m]. *)
Definition hit {C} `{Cache C} (t : Transport World) (m : Mem World C) : bool :=
  match authCache m with
  | Some c =>
      match fst (cache_Get c (cacheKey t (req m))) with
      | Some _ => true
      | None => false
      end
  | None => false
  end.

(** What a computation leaves untouched in the request. *)
Definition same_target {C} (m m' : Mem World C) : Prop :=
  req_URL (req m') = req_URL (req m)
  /\ req_Method (req m') = req_Method (req m)
  /\ GetBody (req m') = GetBody (req m).

(** The request a stale pass hands to the recursive call: [authh] is the
    header it had sent, [consumed] the state the transport left the body
    in, [fresh] what GetBody returned, if it was called. *)
Definition retry_req (r : Request World) (authh : string) (consumed : body)
    (fresh : option (option body)) : Request World :=
  let r := set_Header r (Header_Set (req_Header r) "Authorization" authh) in
  let r := set_Body r (option_map (fun _ => consumed) (req_Body r)) in
  let r := set_Header r (Header_Del (req_Header r) "Authorization") in
  match fresh with
  | Some b => set_Body r b
  | None => r
  end.

End TransportVocabulary.

(** ** Example data *)

(** In the examples a backquote stands for a double quote. *)
Fixpoint dq (s : string) : string :=
  match s with
  | EmptyString => EmptyString
  | String c r => String (if Ascii.eqb c "`" then Strconv.dquote else c) (dq r)
  end.

(** A printable-rune table for examples in ASCII, where the table is
    never consulted. *)
Definition no_wide_runes : Unicode.Tables := {| Unicode.isPrintWide := fun _ => false |}.

(** The challenge and the request context of the package's own test
    ([TestDigestAuthMD5]) and of the example of the specification. *)
Definition example_header : string :=
  dq "Digest qop=`auth`,algorithm=MD5,realm=`monero-rpc`,nonce=`E/fIX+Kmic5GyK1ydhPoFA==`,stale=false".

Definition example_challenge : WWWAuth :=
  {| Realm := "monero-rpc"; Domain := ""; Nonce := "E/fIX+Kmic5GyK1ydhPoFA=="; Opaque := "";
     Stale := "false"; Algorithm := "MD5"; Qop := "auth" |}.

Definition example_input : DigestInput :=
  {| DigestURI := "/json_rpc";
     Cnonce := "MWI5ZjNlNTc3ZDBhNTUxMWU1NGZmYmI3YzE5YWQ4ODE=";
     Method := "POST";
     Username := "john";
     Password := "doe";
     NonceCount := 0 |}.

Definition example_authorization : string :=
  dq "Digest username=`john`, realm=`monero-rpc`, nonce=`E/fIX+Kmic5GyK1ydhPoFA==`, uri=`/json_rpc`, cnonce=`MWI5ZjNlNTc3ZDBhNTUxMWU1NGZmYmI3YzE5YWQ4ODE=`, nc=00000001, qop=auth, response=`639f9031211b1b7b9cfbabe9e0a7fd44`, algorithm=`MD5`".


(** A challenge that offers auth-int and auth. *)
Definition auth_int_auth_challenge : WWWAuth :=
  {| Realm := "monero-rpc"; Domain := ""; Nonce := "E/fIX+Kmic5GyK1ydhPoFA=="; Opaque := "";
     Stale := ""; Algorithm := "MD5"; Qop := "auth-int,auth" |}.

(** A challenge that offers only auth-int. *)
Definition auth_int_challenge : WWWAuth :=
  {| Realm := "monero-rpc"; Domain := ""; Nonce := "E/fIX+Kmic5GyK1ydhPoFA=="; Opaque := "";
     Stale := ""; Algorithm := "MD5"; Qop := "auth-int" |}.

(** A cache that admits every entry and never evicts. *)
#[local] Instance map_cache : Cache (gmap string WWWAuth) := {|
  cache_Get c k := (c !! k, c);
  cache_Set c k v _ := <[k := v]> c;
  cache_Del c k := delete k c
|}.

(** The world of the examples: the number of requests the server has
    received.  The client-nonce generator returns a fixed nonce and no
    random bytes are needed. *)
Definition example_gen (w : nat) : string * nat := ("0a4f113b", w).
Definition example_rand (w : nat) : list Z * nat := ([], w).

Definition example_request : Request nat :=
  {| req_Method := "GET";
     req_URL := {| Hostname := "example.com"; RequestURI := "/" |};
     req_Header := ∅;
     req_Body := None;
     GetBody := None |}.

Definition example_transport (rt : RoundTripper nat) : Transport nat :=
  {| t_Username := "john"; t_Password := "hello"; t_Transport := Some rt;
     CnonceGen := Some example_gen |}.

(** A server without authentication: every request is answered 200. *)
Definition open_server : RoundTripper nat :=
  fun w _ => (S w, NoBody, Ok (mkResponse 200 ∅ (NopCloser "Hello"))).

(** A server that rejects every request with a fresh challenge. *)
Definition challenge_value : string :=
  dq "Digest realm=`example.com`, nonce=`2d7c6e1a`, qop=`auth`".

Definition closed_server : RoundTripper nat :=
  fun w _ =>
    (S w, NoBody,
     Ok (mkResponse 401 {[ "Www-Authenticate" := [challenge_value] ]} (NopCloser "Unauthorized"))).

(** A challenge the server no longer honours, as a cache may hold it. *)
Definition stale_challenge : WWWAuth :=
  {| Realm := "example.com"; Domain := ""; Nonce := "00000000"; Opaque := ""; Stale := "";
     Algorithm := ""; Qop := "auth" |}.

Definition stale_cache : gmap string WWWAuth := {[ "example.com,john,hello" := stale_challenge ]}.

(** A server that answers 200 and sends a challenge all the same. *)
Definition lenient_server : RoundTripper nat :=
  fun w _ =>
    (S w, NoBody,
     Ok (mkResponse 200 {[ "Www-Authenticate" := [challenge_value] ]} (NopCloser "Hello"))).

(** The challenge of [challenge_value], parsed. *)
Definition fresh_challenge : WWWAuth :=
  {| Realm := "example.com"; Domain := ""; Nonce := "2d7c6e1a"; Opaque := ""; Stale := "";
     Algorithm := ""; Qop := "auth" |}.

(** A server that accepts john's answer to [challenge_value] and rejects
    everything else with that challenge. *)
Definition digest_server : RoundTripper nat :=
  fun w r =>
    if String.eqb (Header_Get (req_Header r) "Authorization")
         (match Digest (U := no_wide_runes) [] fresh_challenge
                  (mkDigestInput "john" "hello" (RequestURI (req_URL r)) 0 "0a4f113b"
                     (req_Method r)) with
          | Ok authh => authh
          | Err _ => ""
          end)
    then (S w, NoBody, Ok (mkResponse 200 ∅ (NopCloser "Hello, john!")))
    else closed_server w r.

(** What the examples observe of a call: the number of requests the
    server has received, the status returned and the cache. *)
Definition observed (out : option (Mem nat (gmap string WWWAuth) * result error Response))
    : option (nat * Z * option (gmap string WWWAuth)) :=
  match out with
  | Some (m, Ok resp) => Some (world m, StatusCode resp, authCache m)
  | _ => None
  end.

(** A request with a body and without [GetBody]. *)
Definition example_post : Request nat :=
  {| req_Method := "POST";
     req_URL := {| Hostname := "example.com"; RequestURI := "/json_rpc" |};
     req_Header := ∅;
     req_Body := Some (NopCloser "payload");
     GetBody := None |}.

(** A request whose body fails while it is read. *)
Definition broken_reader : ReadCloser :=
  mkReadCloser "pay" (Some (Errorf "unexpected EOF")) None.

Definition broken_post : Request nat :=
  {| req_Method := "POST";
     req_URL := {| Hostname := "example.com"; RequestURI := "/json_rpc" |};
     req_Header := ∅;
     req_Body := Some (Reader broken_reader);
     GetBody := None |}.

(** A server that offers only auth-int, and its challenge, parsed. *)
Definition auth_int_server : RoundTripper nat :=
  fun w _ =>
    (S w, NoBody,
     Ok (mkResponse 401
           {[ "Www-Authenticate" := [dq "Digest realm=`example.com`, nonce=`2d7c6e1a`, qop=`auth-int`"] ]}
           (NopCloser "Unauthorized"))).

Definition auth_int_parsed : WWWAuth :=
  {| Realm := "example.com"; Domain := ""; Nonce := "2d7c6e1a"; Opaque := ""; Stale := "";
     Algorithm := ""; Qop := "auth-int" |}.

(** The Authorization header john sends in answer to [fresh_challenge]. *)
Definition fresh_authorization : string :=
  match Digest (U := no_wide_runes) [] fresh_challenge
          (mkDigestInput "john" "hello" "/" 0 "0a4f113b" "GET") with
  | Ok authh => authh
  | Err _ => ""
  end.

(** ** Vocabulary of the further properties *)

(** What the loop of [parseDigest] keeps true of its variables. *)
Definition tokenizer_ok (t : tokenizer) : Prop :=
  (state t = 0 \/ state t = 1)
  /\ 0 <= backq t
  /\ (state t = 0 -> quote t = false /\ backq t = 0 /\ val t = "").

(** The challenge without any field. *)
Definition empty_challenge : WWWAuth :=
  {| Realm := ""; Domain := ""; Nonce := ""; Opaque := ""; Stale := ""; Algorithm := "";
     Qop := "" |}.

(** No rune of [rs] is an equals sign. *)
Definition no_equals (rs : list Z) : bool := forallb (fun r => negb (r =? 0x3D)) rs.

(** No byte of [s] is a comma. *)
Definition no_comma (s : string) : bool :=
  forallb (fun c => negb (Ascii.eqb c ",")) (list_ascii_of_string s).

(** A pair of a header as a server or [digestAuth] writes it: blanks,
    a key, an equals sign and a value, either between double quotes or
    bare. *)
Inductive field_value :=
| Quoted (v : string)
| Bare (v : string).

Record field := mkField {
  f_lead : nat;
  f_key : string;
  f_value : field_value
}.

Fixpoint spaces (n : nat) : string :=
  match n with
  | O => EmptyString
  | S n' => String " " (spaces n')
  end.

Definition value_of (v : field_value) : string :=
  match v with
  | Quoted s => s
  | Bare s => s
  end.

Definition value_text (v : field_value) : string :=
  match v with
  | Quoted s => dquote_string +:+ s +:+ dquote_string
  | Bare s => s
  end.

Definition field_text (f : field) : string :=
  spaces (f_lead f) +:+ f_key f +:+ "=" +:+ value_text (f_value f).

(** A byte of ASCII. *)
Definition ascii7 (c : ascii) : bool := byte_of_ascii c <? 0x80.

(** Visible ASCII: printable and not a blank. *)
Definition visible (c : ascii) : bool := Utf8.between 0x21 0x7E (byte_of_ascii c).

(** A key is not empty and made of visible characters other than the
    equals sign. *)
Definition key_char (c : ascii) : bool := visible c && negb (Ascii.eqb c "=").

Definition key_ok (k : string) : bool :=
  negb (String.eqb k "") && forallb key_char (list_ascii_of_string k).

(** A bare value is made of visible characters other than the double
    quote, the backslash and the comma. *)
Definition bare_char (c : ascii) : bool :=
  visible c && plain c && negb (Ascii.eqb c ",").

(** A quoted value is made of printable characters other than the double
    quote and the backslash; it may hold blanks and commas. *)
Definition field_ok (f : field) : bool :=
  key_ok (f_key f)
  && match f_value f with
     | Quoted v => forallb plain (list_ascii_of_string v)
     | Bare v => forallb bare_char (list_ascii_of_string v)
     end.

(** The last byte of [l] is visible ASCII. *)
Definition ends_visible (l : list Z) : Prop :=
  exists l' d, l = l' ++ [d] /\ 0x21 <= d <= 0x7E.

(** The challenge made of the fields of a map. *)
Definition challenge_of (m : gmap string string) : WWWAuth :=
  {| Realm := index m "realm"; Domain := index m "domain"; Nonce := index m "nonce";
     Opaque := index m "opaque"; Stale := index m "stale"; Algorithm := index m "algorithm";
     Qop := index m "qop" |}.

(** A new reader over the bytes of [b]. *)
Definition copy_of (b : body) : body :=
  match b with
  | NoBody => NoBody
  | Reader r => NopCloser (unread r)
  end.

(** Reading [b] to its end and closing it meets no error. *)
Definition readable (b : body) : bool :=
  match b with
  | NoBody => true
  | Reader r =>
      match read_error r, close_error r with
      | None, None => true
      | _, _ => false
      end
  end.

(** The value of the last pair of [fs] whose key is [k]. *)
Definition last_value (fs : list field) (k : string) : option string :=
  match find (fun f => String.eqb (f_key f) k) (rev fs) with
  | Some f => Some (value_of (f_value f))
  | None => None
  end.

(** The map a list of pairs denotes: later pairs override earlier ones. *)
Definition fields_map (fs : list field) : gmap string string :=
  fold_left (fun m f => <[f_key f := value_of (f_value f)]> m) fs ∅.

(* ===================================================================== *)
(** * Part III. Properties                                               *)
(* ===================================================================== *)

(** ** Strings and formatting *)

Lemma append_nil_r (s : string) : s +:+ "" = s.
Proof. induction s as [|c s IH]; [reflexivity|]. cbn. unfold String.append in IH |- *. now rewrite IH. Qed.

Lemma append_assoc (s t u : string) : (s +:+ t) +:+ u = s +:+ (t +:+ u).
Proof.
  induction s as [|c s IH]; [reflexivity|].
  change (String c ((s +:+ t) +:+ u) = String c (s +:+ (t +:+ u))). now rewrite IH.
Qed.

Ltac sprintf := cbv [Sprintf extra]; rewrite ?append_nil_r.

Lemma md5hex_hexmd5 (format : string) (v : list operand) :
  md5hex format v = hexmd5 (Sprintf format v).
Proof. reflexivity. Qed.



Lemma Sprintf_2s (a b : string) :
  Sprintf "%s:%s" [VString a; VString b] = a +:+ ":" +:+ b.
Proof. sprintf. reflexivity. Qed.

Lemma Sprintf_response (h1 nonce cnonce h2 : string) (nc : Z) :
  Sprintf "%s:%s:%08x:%s:%s:%s"
    [VString h1; VString nonce; VUint nc; VString cnonce; VString "auth"; VString h2]
  = h1 +:+ ":" +:+ nonce +:+ ":" +:+ pad08x nc +:+ ":" +:+ cnonce +:+ ":auth:" +:+ h2.
Proof. sprintf. reflexivity. Qed.

Lemma digit_lower_hex (n : Z) : lower_hex (Hex.digit n) = true.
Proof.
  unfold Hex.digit. generalize (Z.to_nat n). intros k.
  do 16 (destruct k as [|k]; [reflexivity|]). reflexivity.
Qed.

Lemma EncodeToString_lower_hex (l : list Z) :
  forallb lower_hex (list_ascii_of_string (Hex.EncodeToString l)) = true.
Proof.
  induction l as [|b l IH]; [reflexivity|].
  cbn [Hex.EncodeToString list_ascii_of_string forallb].
  now rewrite !digit_lower_hex, IH.
Qed.

Lemma le_bytes_length (n : nat) (x : Z) : length (MD5.le_bytes n x) = n.
Proof. revert x. induction n as [|n IH]; intros x; [reflexivity|]. cbn. now rewrite IH. Qed.

Lemma Sum_length (data : list Z) : length (MD5.Sum data) = 16%nat.
Proof. unfold MD5.Sum. cbv zeta. now rewrite !length_app, !le_bytes_length. Qed.

Lemma EncodeToString_length (l : list Z) :
  String.length (Hex.EncodeToString l) = (2 * length l)%nat.
Proof. induction l as [|b l IH]; [reflexivity|]. cbn [Hex.EncodeToString String.length length]. lia. Qed.

Lemma ascii_of_byte_of_ascii (c : ascii) : ascii_of_byte (byte_of_ascii c) = c.
Proof. unfold ascii_of_byte, byte_of_ascii. now rewrite N2Z.id, ascii_N_embedding. Qed.

Lemma lower_hex_plain (c : ascii) : lower_hex c = true -> plain c = true.
Proof.
  unfold lower_hex, plain, Utf8.between. cbv zeta. generalize (byte_of_ascii c). intros b Hb.
  apply orb_true_iff in Hb. rewrite !andb_true_iff, !negb_true_iff, !Z.eqb_neq.
  rewrite !andb_true_iff, !Z.leb_le in Hb. rewrite !Z.leb_le. lia.
Qed.

Section QuotePlain.

Context {U : Unicode.Tables}.

Lemma quoteLoop_plain (s : string) (fuel : nat) :
  forallb plain (list_ascii_of_string s) = true ->
  (String.length s <= fuel)%nat ->
  Strconv.quoteLoop fuel (bytes_of_string s) = s.
Proof.
  revert fuel. induction s as [|c s IH]; intros fuel Hp Hf.
  - destruct fuel; reflexivity.
  - destruct fuel as [|fuel]; [cbn in Hf; lia|].
    cbn [list_ascii_of_string forallb] in Hp. apply andb_true_iff in Hp as [Hc Hs].
    cbn [bytes_of_string Strconv.quoteLoop].
    unfold plain, Utf8.between in Hc. cbv zeta in Hc.
    rewrite !andb_true_iff, !negb_true_iff, !Z.eqb_neq, !Z.leb_le in Hc.
    destruct Hc as [[[Hlo Hhi] Hq] Hb].
    assert (E1 : (Utf8.RuneSelf <=? byte_of_ascii c) = false)
      by (apply Z.leb_gt; unfold Utf8.RuneSelf; lia).
    rewrite E1.
    assert (E2 : (byte_of_ascii c =? Utf8.RuneError) = false)
      by (apply Z.eqb_neq; unfold Utf8.RuneError; lia).
    rewrite E2. cbn [Nat.eqb andb drop].
    assert (E3 : Strconv.escapedRune (byte_of_ascii c) = String c EmptyString).
    { unfold Strconv.escapedRune, Strconv.IsPrint, Utf8.EncodeRune, Utf8.between.
      replace (byte_of_ascii c =? 34) with false by (symmetry; apply Z.eqb_neq; lia).
      replace (byte_of_ascii c =? 92) with false by (symmetry; apply Z.eqb_neq; lia).
      replace (byte_of_ascii c <=? 255) with true by (symmetry; apply Z.leb_le; lia).
      replace (32 <=? byte_of_ascii c) with true by (symmetry; apply Z.leb_le; lia).
      replace (byte_of_ascii c <=? 126) with true by (symmetry; apply Z.leb_le; lia).
      replace (0 <=? byte_of_ascii c) with true by (symmetry; apply Z.leb_le; lia).
      replace (byte_of_ascii c <=? 127) with true by (symmetry; apply Z.leb_le; lia).
      cbn [orb andb string_of_bytes]. now rewrite ascii_of_byte_of_ascii. }
    rewrite E3. rewrite IH by (auto; cbn in Hf; lia). reflexivity.
Qed.

Lemma bytes_of_string_length (s : string) : length (bytes_of_string s) = String.length s.
Proof. induction s as [|c s IH]; [reflexivity|]. cbn. now rewrite IH. Qed.

Lemma Quote_plain (s : string) :
  forallb plain (list_ascii_of_string s) = true ->
  Strconv.Quote s = String Strconv.dquote (s +:+ String Strconv.dquote EmptyString).
Proof.
  intros Hp. unfold Strconv.Quote. cbv zeta.
  rewrite quoteLoop_plain; [reflexivity|exact Hp|]. now rewrite bytes_of_string_length.
Qed.

Lemma forallb_impl_plain (l : list ascii) :
  forallb lower_hex l = true -> forallb plain l = true.
Proof.
  induction l as [|c l IH]; [reflexivity|]. cbn [forallb]. rewrite !andb_true_iff.
  intros [Hc Hl]. split; [now apply lower_hex_plain|auto].
Qed.


End QuotePlain.






Remark pad08x_one : pad08x 1 = "00000001".
Proof. reflexivity. Qed.

(** A count of 2^32 or more does not fit eight digits; the transports
    always pass a count of 0, which [Digest] turns into 1. *)
Remark pad08x_wide : pad08x (2 ^ 32) = "100000000".
Proof. reflexivity. Qed.

Lemma chars_app (a b : string) :
  list_ascii_of_string (a +:+ b) = list_ascii_of_string a ++ list_ascii_of_string b.
Proof.
  induction a as [|c a IH]; [reflexivity|].
  change (String c a +:+ b) with (String c (a +:+ b)). cbn [list_ascii_of_string app]. now rewrite IH.
Qed.

Lemma forallb_chars_app (p : ascii -> bool) (a b : string) :
  forallb p (list_ascii_of_string (a +:+ b))
  = forallb p (list_ascii_of_string a) && forallb p (list_ascii_of_string b).
Proof. now rewrite chars_app, forallb_app. Qed.

Lemma hexacc_lower_hex (fuel : nat) : forall (n : Z) (acc : string),
  forallb lower_hex (list_ascii_of_string acc) = true ->
  forallb lower_hex (list_ascii_of_string (hexacc fuel n acc)) = true.
Proof.
  induction fuel as [|fuel IH]; intros n acc Hacc; [exact Hacc|].
  cbn [hexacc]. destruct (n <? 16).
  - cbn [list_ascii_of_string forallb]. now rewrite digit_lower_hex.
  - apply IH. cbn [list_ascii_of_string forallb]. now rewrite digit_lower_hex.
Qed.

Lemma pad08x_lower_hex (n : Z) :
  forallb lower_hex (list_ascii_of_string (pad08x n)) = true.
Proof.
  unfold pad08x. cbv zeta. rewrite forallb_chars_app. apply andb_true_iff. split.
  - generalize (8 - String.length (hex n))%nat. intros k.
    induction k as [|k IH]; [reflexivity|exact IH].
  - unfold hex. now apply hexacc_lower_hex.
Qed.






(** [strings.Split] at commas and [strings.Join] with commas are inverse
    to each other on lists of strings without comma. *)
Lemma Split_nonempty (s : string) (sep : ascii) : Strings.Split s sep <> [].
Proof.
  destruct s as [|c s]; [discriminate|]. cbn [Strings.Split].
  destruct (Ascii.eqb c sep); [discriminate|]. destruct (Strings.Split s sep); discriminate.
Qed.

Lemma Split_piece (e rest : string) :
  no_comma e = true ->
  Strings.Split (e +:+ "," +:+ rest) "," = e :: Strings.Split rest ",".
Proof.
  induction e as [|c e IH]; intros He; [reflexivity|].
  unfold no_comma in He. cbn [list_ascii_of_string forallb] in He.
  apply andb_true_iff in He as [Hc He]. apply negb_true_iff in Hc.
  change (String c e +:+ "," +:+ rest) with (String c (e +:+ "," +:+ rest)).
  cbn [Strings.Split]. rewrite Hc. now rewrite (IH He).
Qed.

Lemma Split_whole (e : string) : no_comma e = true -> Strings.Split e "," = [e].
Proof.
  induction e as [|c e IH]; intros He; [reflexivity|].
  unfold no_comma in He. cbn [list_ascii_of_string forallb] in He.
  apply andb_true_iff in He as [Hc He]. apply negb_true_iff in Hc.
  cbn [Strings.Split]. rewrite Hc. now rewrite (IH He).
Qed.

Lemma Split_Join (l : list string) :
  l <> [] -> forallb no_comma l = true -> Strings.Split (Strings.Join l ",") "," = l.
Proof.
  induction l as [|e l IH]; intros Hne Hl; [contradiction|].
  cbn [forallb] in Hl. apply andb_true_iff in Hl as [He Hl].
  destruct l as [|e2 l]; [now apply Split_whole|].
  change (Strings.Join (e :: e2 :: l) ",") with (e +:+ "," +:+ Strings.Join (e2 :: l) ",").
  rewrite Split_piece by exact He. now rewrite IH.
Qed.

Lemma Join_Split (s : string) : Strings.Join (Strings.Split s ",") "," = s.
Proof.
  induction s as [|c s IH]; [reflexivity|]. cbn [Strings.Split].
  destruct (Ascii.eqb_spec c ",") as [->|Hc].
  - destruct (Strings.Split s ",") as [|h t] eqn:E; [now apply Split_nonempty in E|].
    change (Strings.Join ("" :: h :: t) ",") with ("," +:+ Strings.Join (h :: t) ",").
    now rewrite IH.
  - destruct (Strings.Split s ",") as [|h t] eqn:E; [now apply Split_nonempty in E|].
    rewrite <- IH. destruct t as [|h2 t]; reflexivity.
Qed.

Lemma Split_pieces (s : string) : forallb no_comma (Strings.Split s ",") = true.
Proof.
  induction s as [|c s IH]; [reflexivity|]. cbn [Strings.Split].
  destruct (Ascii.eqb c ",") eqn:Hc; [cbn [forallb]; now rewrite IH|].
  destruct (Strings.Split s ",") as [|h t]; [cbn; now rewrite Hc|].
  cbn [forallb] in IH |- *. apply andb_true_iff in IH as [Hh Ht]. rewrite Ht, andb_true_r.
  unfold no_comma in *. cbn [list_ascii_of_string forallb]. now rewrite Hc, Hh.
Qed.

(** A field of the header: [Sprintf] of a name followed by [%v]. *)
Lemma Sprintf_v (name x : string) :
  forallb (fun c => negb (Ascii.eqb c "%")) (list_ascii_of_string name) = true ->
  Sprintf (name +:+ "%v") [VString x] = name +:+ x.
Proof.
  induction name as [|c name IH]; intros Hn.
  - change (Sprintf "%v" [VString x] = x). sprintf. reflexivity.
  - cbn [list_ascii_of_string forallb] in Hn. apply andb_true_iff in Hn as [Hc Hn].
    change (String c name +:+ "%v") with (String c (name +:+ "%v")).
    change (String c name +:+ x) with (String c (name +:+ x)).
    rewrite <- IH by exact Hn.
    destruct c as [[] [] [] [] [] [] [] []]; try reflexivity. discriminate Hc.
Qed.

Lemma Sprintf_nc (n : Z) : Sprintf "nc=%08x" [VUint n] = "nc=" +:+ pad08x n.
Proof. sprintf. reflexivity. Qed.

(** ** The digest response engine *)

Section EngineProperties.

Context {U : Unicode.Tables}.

Lemma Digest_range_auth rnd a inp (l : list string) :
  In "auth" l -> Digest_range rnd a inp l = digestAuth rnd a inp.
Proof.
  induction l as [|q l IH]; intros Hin; [destruct Hin|].
  cbn [Digest_range]. destruct (String.eqb q "auth") eqn:E; [reflexivity|].
  destruct Hin as [->|Hin]; [discriminate E|auto].
Qed.

Lemma Digest_range_none rnd a inp (l : list string) :
  ~ In "auth" l -> Digest_range rnd a inp l = Err (UnsupportedQop (Qop a)).
Proof.
  induction l as [|q l IH]; intros Hin.
  - cbn [Digest_range]. unfold UnsupportedQop. sprintf. reflexivity.
  - cbn [Digest_range]. destruct (String.eqb q "auth") eqn:E.
    + apply String.eqb_eq in E. subst. exfalso. apply Hin. now left.
    + apply IH. intros Hl. apply Hin. now right.
Qed.

Lemma ha1_cases a inp :
  (exists h1, ha1 a inp = Ok h1) \/ ha1 a inp = Err UnsupportedAlgorithm.
Proof.
  unfold ha1.
  destruct (String.eqb (Algorithm a) "" || String.eqb (Algorithm a) "MD5"); [eauto|].
  destruct (String.eqb (Algorithm a) "MD5-sess"); [eauto|]. now right.
Qed.

Lemma digestAuth_cases rnd a inp :
  (exists h, digestAuth rnd a inp = Ok h) \/ digestAuth rnd a inp = Err UnsupportedAlgorithm.
Proof.
  unfold digestAuth. destruct (ha1_cases a inp) as [[h1 ->]| ->]; [eauto|now right].
Qed.



(** C6. [Digest] fails with the "digest not implemented" error if and
    only if no piece of the qop field, split at commas, is exactly
    "auth".  The pieces are what is between the commas: they have no
    comma, joined by commas they give the field back, and they are the
    only list of that kind.  An empty qop and a qop of "auth-int" alone
    both fail so; "auth-int,auth" does not; "auth-int, auth" does, as
    the blank is part of the second piece. *)
Theorem Digest_unsupported_qop (rnd : list Z) (a : WWWAuth) (inp : DigestInput) :
  (Digest rnd a inp = Err (UnsupportedQop (Qop a))
     <-> ~ In "auth" (Strings.Split (Qop a) ","))
  /\ (Strings.Split (Qop a) "," <> []
      /\ forallb no_comma (Strings.Split (Qop a) ",") = true
      /\ Strings.Join (Strings.Split (Qop a) ",") "," = Qop a)
  /\ (forall l : list string,
        l <> [] -> forallb no_comma l = true -> Qop a = Strings.Join l "," ->
        Strings.Split (Qop a) "," = l
        /\ (Digest rnd a inp = Err (UnsupportedQop (Qop a)) <-> ~ In "auth" l))
  /\ (Qop a = "" -> Digest rnd a inp = Err (UnsupportedQop ""))
  /\ (Qop a = "auth-int" -> Digest rnd a inp = Err (UnsupportedQop "auth-int"))
  /\ (Qop a = "auth-int,auth" -> Digest rnd a inp <> Err (UnsupportedQop "auth-int,auth"))
  /\ (Qop a = "auth,auth-int" -> Digest rnd a inp <> Err (UnsupportedQop "auth,auth-int"))
  /\ (Qop a = "auth-int, auth" ->
      Digest rnd a inp = Err (UnsupportedQop "auth-int, auth")).
Proof.
  assert (Hiff : Digest rnd a inp = Err (UnsupportedQop (Qop a))
                 <-> ~ In "auth" (Strings.Split (Qop a) ",")).
  { split.
    - intros HD Hin. unfold Digest in HD. rewrite Digest_range_auth in HD by exact Hin.
      destruct (digestAuth_cases rnd a
                  (if NonceCount inp =? 0 then set_NonceCount inp (NonceCount inp + 1) else inp))
        as [[h Hh]|Hh]; rewrite Hh in HD; discriminate HD.
    - intros Hn. unfold Digest. now apply Digest_range_none. }
  assert (Hl : forall l : list string,
             l <> [] -> forallb no_comma l = true -> Qop a = Strings.Join l "," ->
             Strings.Split (Qop a) "," = l
             /\ (Digest rnd a inp = Err (UnsupportedQop (Qop a)) <-> ~ In "auth" l)).
  { intros l Hne Hnc Hq.
    assert (Hs : Strings.Split (Qop a) "," = l) by (rewrite Hq; now apply Split_Join).
    split; [exact Hs|]. now rewrite <- Hs. }
  split; [exact Hiff|]. split.
  { split; [apply Split_nonempty|]. split; [apply Split_pieces|apply Join_Split]. }
  split; [exact Hl|]. split; [|split; [|split; [|split]]].
  - intros Hq. rewrite <- Hq.
    apply (Hl [""]); [discriminate|reflexivity|exact Hq|]. intros [E|[]]. discriminate E.
  - intros Hq. rewrite <- Hq.
    apply (Hl ["auth-int"]); [discriminate|reflexivity|exact Hq|]. intros [E|[]]. discriminate E.
  - intros Hq. rewrite <- Hq. intros HD.
    apply (Hl ["auth-int"; "auth"]) in HD; [|discriminate|reflexivity|exact Hq].
    apply HD. right. left. reflexivity.
  - intros Hq. rewrite <- Hq. intros HD.
    apply (Hl ["auth"; "auth-int"]) in HD; [|discriminate|reflexivity|exact Hq].
    apply HD. left. reflexivity.
  - intros Hq. rewrite <- Hq.
    apply (Hl ["auth-int"; " auth"]); [discriminate|reflexivity|exact Hq|].
    intros [E|[E|[]]]; discriminate E.
Qed.

Lemma Digest_counted rnd a inp :
  Digest rnd a inp = Digest_range rnd a (counted inp) (Strings.Split (Qop a) ",").
Proof.
  unfold Digest, counted. destruct (NonceCount inp =? 0) eqn:E; [|reflexivity].
  apply Z.eqb_eq in E. now rewrite E.
Qed.

Lemma digestAuth_header rnd a inp h1 :
  ha1 a inp = Ok h1 ->
  digestAuth rnd a inp =
    Ok ("Digest username=" +:+ Strconv.Quote (Username inp)
        +:+ ", realm=" +:+ Strconv.Quote (Realm a)
        +:+ ", nonce=" +:+ Strconv.Quote (Nonce a)
        +:+ ", uri=" +:+ Strconv.Quote (DigestURI inp)
        +:+ ", cnonce=" +:+ Strconv.Quote (client_nonce rnd inp)
        +:+ ", nc=" +:+ pad08x (NonceCount inp)
        +:+ ", qop=auth"
        +:+ ", response=" +:+ Strconv.Quote (response_spec h1 a inp (client_nonce rnd inp))
        +:+ ", algorithm=" +:+ Strconv.Quote (Algorithm a)
        +:+ (if String.eqb (Opaque a) "" then ""
             else ", opaque=" +:+ Strconv.Quote (Opaque a))).
Proof.
  intros Hh1. unfold digestAuth. rewrite Hh1.
  cbv zeta. rewrite !md5hex_hexmd5, Sprintf_response, Sprintf_2s.
  unfold response_spec, HA2_spec, client_nonce.
  set (cn := if String.eqb (Cnonce inp) "" then newCnonce rnd else Cnonce inp).
  set (resp := hexmd5 (h1 +:+ _)).
  change "cnonce=%v" with ("cnonce=" +:+ "%v").
  change "username=%v" with ("username=" +:+ "%v").
  change "realm=%v" with ("realm=" +:+ "%v").
  change "nonce=%v" with ("nonce=" +:+ "%v").
  change "uri=%v" with ("uri=" +:+ "%v").
  change "response=%v" with ("response=" +:+ "%v").
  change "algorithm=%v" with ("algorithm=" +:+ "%v").
  change "opaque=%v" with ("opaque=" +:+ "%v").
  rewrite !Sprintf_v by reflexivity. rewrite Sprintf_nc.
  change (Sprintf "qop=%s" [VString "auth"]) with "qop=auth".
  repeat match goal with
         | |- context [Strconv.Quote ?x] => generalize (Strconv.Quote x); intro
         | |- context [pad08x ?x] => generalize (pad08x x); intro
         end.
  destruct (String.eqb (Opaque a) ""); cbv [negb app Strings.Join];
    rewrite ?append_nil_r; reflexivity.
Qed.



Example md5hex_12345 : md5hex "12345" [] = "827ccb0eea8a706c4c34a16891f84e7b".
Proof. vm_compute. reflexivity. Qed.

Example example_parse : ParseWWWAuthenticate example_header = Ok example_challenge.
Proof. vm_compute. reflexivity. Qed.




Lemma digestAuth_rnd_irrelevant rnd1 rnd2 a inp :
  Cnonce inp <> "" -> digestAuth rnd1 a inp = digestAuth rnd2 a inp.
Proof.
  intros Hc. apply String.eqb_neq in Hc. unfold digestAuth. now rewrite Hc.
Qed.

Lemma Cnonce_counted inp : Cnonce (counted inp) = Cnonce inp.
Proof. unfold counted. now destruct (NonceCount inp =? 0). Qed.

(** C9. With a client nonce supplied, the header does not depend on the
    random bytes a run draws: two runs on the same challenge and request
    context return the same bytes.  Every hash the engine computes is 32
    characters out of 0-9 and a-f. *)
Theorem Digest_deterministic (rnd1 rnd2 : list Z) (a : WWWAuth) (inp : DigestInput) :
  Cnonce inp <> "" ->
  Digest rnd1 a inp = Digest rnd2 a inp
  /\ (forall format v,
        forallb lower_hex (list_ascii_of_string (md5hex format v)) = true
        /\ String.length (md5hex format v) = 32%nat).
Proof.
  intros Hc. split.
  - rewrite !Digest_counted.
    induction (Strings.Split (Qop a) ",") as [|q l IH]; [reflexivity|].
    cbn [Digest_range]. destruct (String.eqb q "auth"); [|exact IH].
    apply digestAuth_rnd_irrelevant. now rewrite Cnonce_counted.
  - intros format v. split.
    + apply EncodeToString_lower_hex.
    + unfold md5hex. cbv zeta. now rewrite EncodeToString_length, Sum_length.
Qed.

End EngineProperties.

(** *** Instances of the engine theorems *)




Lemma Digest_deterministic_witness :
  Digest (U := no_wide_runes) [1; 2; 3] example_challenge example_input
  = Digest (U := no_wide_runes) [4; 5; 6] example_challenge example_input.
Proof.
  apply (Digest_deterministic (U := no_wide_runes) [1; 2; 3] [4; 5; 6]
           example_challenge example_input).
  discriminate.
Defined.

Lemma Digest_unsupported_qop_witness :
  Strings.Split (Qop auth_int_auth_challenge) "," = ["auth-int"; "auth"]
  /\ (Digest (U := no_wide_runes) [] auth_int_auth_challenge example_input
      = Err (UnsupportedQop (Qop auth_int_auth_challenge))
      <-> ~ In "auth" ["auth-int"; "auth"]).
Proof.
  refine (proj1 (proj2 (proj2 (Digest_unsupported_qop (U := no_wide_runes) []
                                 auth_int_auth_challenge example_input)))
            ["auth-int"; "auth"] _ eq_refl eq_refl).
  discriminate.
Defined.

(** ** The challenge parser *)

Lemma ParseWWWAuthenticate_accepts (entry : string) :
  Strings.HasPrefix (Strings.TrimSpace entry) "Digest " = true ->
  exists wwwa, ParseWWWAuthenticate entry = Ok wwwa.
Proof. intros E. unfold ParseWWWAuthenticate. cbv zeta. rewrite E. cbn [negb]. eauto. Qed.

Lemma ParseWWWAuthenticate_rejects (entry : string) :
  Strings.HasPrefix (Strings.TrimSpace entry) "Digest " = false ->
  ParseWWWAuthenticate entry = Err (MalformedChallenge (Strings.TrimSpace entry)).
Proof.
  intros E. unfold ParseWWWAuthenticate. cbv zeta. rewrite E. cbn [negb].
  unfold MalformedChallenge. sprintf. reflexivity.
Qed.

(** C8, as the specification states it, fails: the entry is trimmed
    first, so an entry that starts with white space and not with the
    scheme token is parsed. *)
Lemma ParseWWWAuthenticate_leading_space :
  Strings.HasPrefix " Digest realm=x" "Digest " = false
  /\ ParseWWWAuthenticate " Digest realm=x"
     = Ok {| Realm := "x"; Domain := ""; Nonce := ""; Opaque := ""; Stale := "";
             Algorithm := ""; Qop := "" |}.
Proof. split; vm_compute; reflexivity. Qed.

(** C8, amended. The parser produces a challenge if and only if the
    entry, with leading and trailing white space removed, begins with
    "Digest " (case-sensitive, one space); otherwise it returns the "bad
    challenge" error, which names the trimmed entry, and no challenge. *)
Theorem ParseWWWAuthenticate_prefix (entry : string) :
  ((exists wwwa, ParseWWWAuthenticate entry = Ok wwwa)
     <-> Strings.HasPrefix (Strings.TrimSpace entry) "Digest " = true)
  /\ (Strings.HasPrefix (Strings.TrimSpace entry) "Digest " = false ->
      ParseWWWAuthenticate entry = Err (MalformedChallenge (Strings.TrimSpace entry))).
Proof.
  destruct (Strings.HasPrefix (Strings.TrimSpace entry) "Digest ") eqn:E.
  - split; [|discriminate]. split; [reflexivity|]. intros _.
    now apply ParseWWWAuthenticate_accepts.
  - split; [|intros _; now apply ParseWWWAuthenticate_rejects].
    split; [|discriminate]. intros [w Hw].
    rewrite (ParseWWWAuthenticate_rejects entry E) in Hw. discriminate Hw.
Qed.

Lemma ParseWWWAuthenticate_prefix_witness :
  ParseWWWAuthenticate "digest realm=x" = Err (MalformedChallenge "digest realm=x").
Proof.
  exact (proj2 (ParseWWWAuthenticate_prefix "digest realm=x") eq_refl).
Defined.

(** C10. Once the prefix is accepted the parser returns a challenge, never
    an error.  A value that starts with a double quote and that
    [strconv.Unquote] rejects is stored as the empty string, at a
    separating comma and at the end of the input alike: an unterminated
    quote and an invalid escape both give an empty field. *)
Theorem ParseWWWAuthenticate_total :
  (forall entry, Strings.HasPrefix (Strings.TrimSpace entry) "Digest " = true ->
     exists wwwa, ParseWWWAuthenticate entry = Ok wwwa)
  /\ (forall key val keys,
        Strings.HasPrefix val dquote_string = true ->
        Strconv.Unquote val = Err tt ->
        store key val keys = <[Strings.TrimSpace key := ""]> keys
        /\ index (store key val keys) (Strings.TrimSpace key) = "")
  /\ (forall t, state t = 1 -> quote t = false ->
        keys (tokenize t 0x2C) = store (key t) (val t) (keys t))
  /\ (forall rawDigest, key (tokenize_all rawDigest) <> "" ->
        parseDigest rawDigest
        = store (key (tokenize_all rawDigest)) (val (tokenize_all rawDigest))
                (keys (tokenize_all rawDigest)))
  /\ ParseWWWAuthenticate (dq "Digest realm=`abc")
     = Ok {| Realm := ""; Domain := ""; Nonce := ""; Opaque := ""; Stale := "";
             Algorithm := ""; Qop := "" |}
  /\ ParseWWWAuthenticate (dq "Digest realm=`a\qb`,nonce=x")
     = Ok {| Realm := ""; Domain := ""; Nonce := "x"; Opaque := ""; Stale := "";
             Algorithm := ""; Qop := "" |}.
Proof.
  split; [|split; [|split; [|split; [|split]]]].
  - intros entry. apply ParseWWWAuthenticate_accepts.
  - intros k v ks Hq Hu. unfold store. rewrite Hq, Hu. split; [reflexivity|].
    unfold index. now rewrite lookup_insert_eq.
  - intros t Hs Hq. unfold tokenize. rewrite Hs, Hq. reflexivity.
  - intros raw Hk. unfold parseDigest. cbv zeta.
    apply String.eqb_neq in Hk. now rewrite Hk.
  - vm_compute. reflexivity.
  - vm_compute. reflexivity.
Qed.

Lemma ParseWWWAuthenticate_total_witness :
  exists wwwa, ParseWWWAuthenticate (dq "Digest realm=`abc") = Ok wwwa.
Proof.
  apply (proj1 ParseWWWAuthenticate_total (dq "Digest realm=`abc")).
  vm_compute. reflexivity.
Defined.

(** C4. What holds: a double quote flips [quote] exactly when [backq] is
    even, a comma met while [quote] is set is kept in the value, and
    realm="a,b" is one field.  What fails: [backq] is not reset at such a
    comma, so it is not the number of backslashes just before the quote.
    After realm="a\,\ one backslash precedes the next quote, which flips
    [quote] all the same; after realm="a\, none precedes it, and [quote]
    is not flipped.  Either way the pairs that follow are swallowed. *)
Theorem tokenizer_quote_parity :
  (forall t, state t = 1 ->
     quote (tokenize t 0x22) = if backq t mod 2 =? 0 then negb (quote t) else quote t)
  /\ (forall t, state t = 1 -> quote t = true ->
        tokenize t 0x2C
        = mkTokenizer 1 true (backq t) (key t) (WriteRune (val t) 0x2C) (keys t))
  /\ parseDigest (dq "Digest realm=`a,b`") = {[ "realm" := "a,b" ]}
  /\ (let t := tokenizer_after (dq "realm=`a\,\") in
      trailing_backslashes (Utf8.runes (dq "realm=`a\,\")) = 1%nat
      /\ state t = 1 /\ quote t = true /\ backq t = 2
      /\ quote (tokenize t 0x22) = false)
  /\ (let t := tokenizer_after (dq "realm=`a\,") in
      trailing_backslashes (Utf8.runes (dq "realm=`a\,")) = 0%nat
      /\ state t = 1 /\ quote t = true /\ backq t = 1
      /\ quote (tokenize t 0x22) = true)
  /\ parseDigest (dq "Digest realm=`a\,`,nonce=`x`")
     = {[ "realm" := "" ]}
  /\ ParseWWWAuthenticate (dq "Digest realm=`a\,`,nonce=`x`")
     = Ok {| Realm := ""; Domain := ""; Nonce := ""; Opaque := ""; Stale := "";
             Algorithm := ""; Qop := "" |}.
Proof.
  split; [|split; [|split; [|split; [|split; [|split]]]]].
  - intros t Hs. unfold tokenize. rewrite Hs. reflexivity.
  - intros t Hs Hq. unfold tokenize. rewrite Hs, Hq. reflexivity.
  - vm_compute. reflexivity.
  - vm_compute. repeat split; reflexivity.
  - vm_compute. repeat split; reflexivity.
  - vm_compute. reflexivity.
  - vm_compute. reflexivity.
Qed.


(** ** The transports *)

#[local] Instance map_cache_del : CacheDel (gmap string WWWAuth).
Proof. intros c k. cbn. apply lookup_delete_eq. Qed.

Section TransportProperties.

Context {U : Unicode.Tables} {World : Type} (rand_Read : World -> list Z * World).

(** Case analysis along a computation: split on the scrutinee of the
    innermost [match], simplify, repeat. *)
Ltac split_match :=
  match goal with
  | |- context [match ?x with _ => _ end] =>
      lazymatch x with
      | context [match _ with _ => _ end] => fail
      | _ => destruct x eqn:?
      end
  end.

Ltac reduce :=
  cbn beta iota zeta delta
    [world req authCache set_Body set_Header req_URL req_Method req_Header req_Body GetBody
     fst snd andb negb option_map].

Ltac run :=
  unfold bind, ret, fail, get_req, put_req, in_world, send, send_req, chal_Digest,
    authCache_Get, authCache_Set, authCache_Del;
  reduce; repeat (split_match; reduce).

Lemma doAuthRequest_frame {C} (rt : RoundTripper World) (m m' : Mem World C) r :
  doAuthRequest rt m = (m', r) -> authCache m' = authCache m /\ same_target m m'.
Proof.
  unfold doAuthRequest, same_target. destruct m as [w r0 c]. run.
  all: intros Heq; injection Heq as <- <-; cbn.
  all: repeat split; try reflexivity; congruence.
Qed.

(** C1. The probe response is not what [RoundTrip] returns when its
    status is not 401: [doAuthRequest] hands it back, and [RoundTrip] goes
    on to parse its WWW-Authenticate header.  Without a Digest challenge
    in that header the caller gets the "bad challenge" error instead of
    the response. *)
Theorem RoundTrip_probe_not_returned {C} (t : Transport World) rt gen
    (m m1 : Mem World C) (resp : Response) :
  t_Transport t = Some rt ->
  CnonceGen t = Some gen ->
  doAuthRequest rt m = (m1, Ok resp) ->
  StatusCode resp <> StatusUnauthorized ->
  Strings.HasPrefix (Strings.TrimSpace (Header_Get (resp_Header resp) "WWW-Authenticate"))
    "Digest " = false ->
  RoundTrip rand_Read t m
  = (m1, Err (MalformedChallenge
                (Strings.TrimSpace (Header_Get (resp_Header resp) "WWW-Authenticate"))))
  /\ RoundTrip rand_Read t m <> (m1, Ok resp).
Proof.
  intros Ht Hg Hd Hs Hp.
  assert (E : RoundTrip rand_Read t m
              = (m1, Err (MalformedChallenge
                   (Strings.TrimSpace (Header_Get (resp_Header resp) "WWW-Authenticate"))))).
  { unfold RoundTrip. rewrite Ht, Hg. unfold bind at 1. rewrite Hd. unfold bind at 1.
    rewrite (ParseWWWAuthenticate_rejects _ Hp). reflexivity. }
  split; [exact E|]. rewrite E. discriminate.
Qed.

Lemma pass_miss_returns {C} `{Cache C} (t : Transport World) (m m' : Mem World C) :
  hit t m = false -> CachedRoundTrip_pass rand_Read t m <> (m', Ok Recurse).
Proof.
  unfold hit, CachedRoundTrip_pass. intros Hhit.
  destruct (t_Transport t) as [rt|]; [|discriminate].
  destruct (CnonceGen t) as [gen|]; [|discriminate].
  destruct m as [w r0 c]. cbn [authCache req] in Hhit.
  run.
  all: try discriminate.
  all: try (rewrite Heqp in Hhit; cbn in Hhit; discriminate Hhit).
  all: match goal with
       | E : _ && false = true |- _ => rewrite andb_false_r in E; discriminate E
       end.
Qed.

Lemma Header_Del_lookup (h : Header) :
  Header_Del h "Authorization" !! "Authorization" = None.
Proof.
  unfold Header_Del.
  change (CanonicalMIMEHeaderKey "Authorization") with "Authorization".
  apply lookup_delete_eq.
Qed.

Lemma Header_Del_Get (h : Header) :
  Header_Get (Header_Del h "Authorization") "Authorization" = "".
Proof.
  unfold Header_Get. fold (Header_Del h "Authorization").
  change (CanonicalMIMEHeaderKey "Authorization") with "Authorization".
  now rewrite Header_Del_lookup.
Qed.

Lemma pass_recurse_inv {C} `{Cache C} (t : Transport World) (m m' : Mem World C) :
  CachedRoundTrip_pass rand_Read t m = (m', Ok Recurse) ->
  hit t m = true
  /\ (exists c0, authCache m' = Some (cache_Del c0 (cacheKey t (req m))))
  /\ req_Header (req m') !! "Authorization" = None
  /\ Header_Get (req_Header (req m')) "Authorization" = ""
  /\ same_target m m'
  /\ (forall g, req_Body (req m) <> None -> GetBody (req m) = Some g ->
        exists w, g w = (req_Body (req m'), None, world m')).
Proof.
  unfold hit, CachedRoundTrip_pass, same_target.
  destruct (t_Transport t) as [rt|]; [|discriminate].
  destruct (CnonceGen t) as [gen|]; [|discriminate].
  destruct m as [w r0 c]. cbn [authCache req].
  run.
  all: try discriminate.
  all: try match goal with
         | E : _ && false = true |- _ => rewrite andb_false_r in E; discriminate E
         end.
  all: intros Heq; injection Heq as <-; cbn.
  all: repeat split; eauto using Header_Del_lookup, Header_Del_Get.
  all: intros g Hb Hg; try congruence.
  all: try (exfalso; destruct (req_Body r0); [discriminate|congruence]).
  all: injection Hg as <-; eexists; eassumption.
Qed.

Lemma pass_return_401 {C} `{Cache C} (t : Transport World) (m m' : Mem World C) resp :
  CachedRoundTrip_pass rand_Read t m = (m', Ok (Return resp)) ->
  StatusCode resp = StatusUnauthorized ->
  hit t m = false.
Proof.
  unfold hit, CachedRoundTrip_pass.
  destruct (t_Transport t) as [rt|]; [|discriminate].
  destruct (CnonceGen t) as [gen|]; [|discriminate].
  destruct m as [w r0 c]. cbn [authCache req].
  run.
  all: try discriminate.
  all: try reflexivity.
  all: intros Heq; injection Heq as <- <-; intros Hs.
  all: rewrite Hs in *; discriminate.
Qed.

Lemma pass_stale {C} `{Cache C} (t : Transport World) rt gen (w : World) (r : Request World)
    (c c1 : C) chal cnonce w1 m2 authh w3 consumed resp :
  t_Transport t = Some rt ->
  CnonceGen t = Some gen ->
  cache_Get c (cacheKey t r) = (Some chal, c1) ->
  gen w = (cnonce, w1) ->
  chal_Digest rand_Read chal (digestInput t r cnonce) (mkMem w1 r (Some c1)) = (m2, Ok authh) ->
  rt (world m2) (set_Header r (Header_Set (req_Header r) "Authorization" authh))
    = (w3, consumed, Ok resp) ->
  StatusCode resp = StatusUnauthorized ->
  let key := cacheKey t r in
  (req_Body r = None \/ GetBody r = None ->
     CachedRoundTrip_pass rand_Read t (mkMem w r (Some c))
     = (mkMem w3 (retry_req r authh consumed None) (Some (cache_Del c1 key)), Ok Recurse))
  /\ (forall g fresh err w4,
        req_Body r <> None -> GetBody r = Some g -> g w3 = (fresh, err, w4) ->
        CachedRoundTrip_pass rand_Read t (mkMem w r (Some c))
        = (mkMem w4 (retry_req r authh consumed (Some fresh)) (Some (cache_Del c1 key)),
           match err with Some e => Err e | None => Ok Recurse end)).
Proof.
  intros Ht Hg Hc Hgen Hd Hrt Hs key.
  assert (Hm2 : req m2 = r /\ authCache m2 = Some c1).
  { revert Hd. unfold chal_Digest. cbn [world req authCache].
    destruct (rand_Read w1) as [rnd w2]. destruct (Digest _ _ _); [|discriminate].
    destruct (String.eqb _ _); intros [= <- _]; auto. }
  destruct Hm2 as [Hr2 Hc2].
  unfold CachedRoundTrip_pass. rewrite Ht, Hg.
  unfold bind, ret, fail, get_req, put_req, in_world, send_req, authCache_Get, authCache_Del.
  reduce. rewrite Hc. reduce. rewrite Hgen. reduce. rewrite Hd. reduce.
  rewrite Hr2, Hc2, Hrt. reduce. rewrite Hs.
  change (StatusUnauthorized =? StatusUnauthorized) with true. reduce.
  unfold retry_req. reduce.
  split.
  - intros Hor. destruct (req_Body r) as [b0|] eqn:Eb; reduce; [|reflexivity].
    destruct (GetBody r) as [g|] eqn:EG; [destruct Hor; congruence|reflexivity].
  - intros g fresh err w4 Hb HG Hg4.
    destruct (req_Body r) as [b0|]; [|congruence]. reduce.
    destruct (GetBody r) as [g'|] eqn:EG; [|discriminate HG]. injection HG as ->.
    reduce. rewrite Hg4. reduce. now destruct err.
Qed.

Lemma pass_after_recurse {C} `{CacheDel C} (t : Transport World) (m m1 : Mem World C) :
  CachedRoundTrip_pass rand_Read t m = (m1, Ok Recurse) -> hit t m1 = false.
Proof.
  intros Hp. apply pass_recurse_inv in Hp as (_ & [c0 Hc] & _ & _ & (Hu & _ & _) & _).
  unfold hit. rewrite Hc. unfold cacheKey. rewrite Hu.
  fold (cacheKey t (req m)). now rewrite get_after_del.
Qed.

(** C2. A pass recurses only when the challenge came from the cache and
    the authenticated request came back 401; it has then deleted the cache
    entry, removed the Authorization header and, for a request with a body
    and GetBody, replaced the body by the reader GetBody returned (an error
    of GetBody is returned instead of recursing).  The recursive pass
    misses the cache, so it never recurses: the call is over after two
    passes at most, and whatever the second pass gets, a 401 included, is
    returned to the caller. *)
Theorem CachedRoundTrip_retries_once {C} `{CacheDel C} (t : Transport World) (m : Mem World C) :
  (exists out, forall fuel, (2 <= fuel)%nat -> CachedRoundTrip rand_Read fuel t m = Some out)
  /\ (forall rt gen c chal c1 cnonce w1 m2 authh w3 consumed resp,
        t_Transport t = Some rt ->
        CnonceGen t = Some gen ->
        authCache m = Some c ->
        cache_Get c (cacheKey t (req m)) = (Some chal, c1) ->
        gen (world m) = (cnonce, w1) ->
        chal_Digest rand_Read chal (digestInput t (req m) cnonce) (mkMem w1 (req m) (Some c1))
          = (m2, Ok authh) ->
        rt (world m2) (set_Header (req m) (Header_Set (req_Header (req m)) "Authorization" authh))
          = (w3, consumed, Ok resp) ->
        StatusCode resp = StatusUnauthorized ->
        (req_Body (req m) = None \/ GetBody (req m) = None ->
           CachedRoundTrip_pass rand_Read t m
           = (mkMem w3 (retry_req (req m) authh consumed None)
                (Some (cache_Del c1 (cacheKey t (req m)))), Ok Recurse))
        /\ (forall g fresh err w4,
              req_Body (req m) <> None -> GetBody (req m) = Some g -> g w3 = (fresh, err, w4) ->
              CachedRoundTrip_pass rand_Read t m
              = (mkMem w4 (retry_req (req m) authh consumed (Some fresh))
                   (Some (cache_Del c1 (cacheKey t (req m)))),
                 match err with Some e => Err e | None => Ok Recurse end)))
  /\ (forall m1 resp,
        CachedRoundTrip_pass rand_Read t m = (m1, Ok (Return resp)) ->
        StatusCode resp = StatusUnauthorized -> hit t m = false)
  /\ (forall m1,
        CachedRoundTrip_pass rand_Read t m = (m1, Ok Recurse) ->
        hit t m = true
        /\ (exists c0, authCache m1 = Some (cache_Del c0 (cacheKey t (req m))))
        /\ req_Header (req m1) !! "Authorization" = None
        /\ (forall g, req_Body (req m) <> None -> GetBody (req m) = Some g ->
              exists w, g w = (req_Body (req m1), None, world m1))
        /\ hit t m1 = false
        /\ (forall m2, CachedRoundTrip_pass rand_Read t m1 <> (m2, Ok Recurse))
        /\ (forall fuel m2 resp,
              CachedRoundTrip_pass rand_Read t m1 = (m2, Ok (Return resp)) ->
              CachedRoundTrip rand_Read (S (S fuel)) t m = Some (m2, Ok resp))
        /\ (forall fuel m2 e,
              CachedRoundTrip_pass rand_Read t m1 = (m2, Err e) ->
              CachedRoundTrip rand_Read (S (S fuel)) t m = Some (m2, Err e))).
Proof.
  split; [|split; [|split]].
  - destruct (CachedRoundTrip_pass rand_Read t m) as [m1 [[resp|]|e]] eqn:E1.
    + exists (m1, Ok resp). intros [|fuel] Hf; [lia|]. cbn [CachedRoundTrip]. now rewrite E1.
    + pose proof (pass_after_recurse t m m1 E1) as Hmiss.
      destruct (CachedRoundTrip_pass rand_Read t m1) as [m2 [[resp|]|e]] eqn:E2.
      * exists (m2, Ok resp). intros [|[|fuel]] Hf; [lia|lia|].
        cbn [CachedRoundTrip]. now rewrite E1, E2.
      * exfalso. exact (pass_miss_returns t m1 m2 Hmiss E2).
      * exists (m2, Err e). intros [|[|fuel]] Hf; [lia|lia|].
        cbn [CachedRoundTrip]. now rewrite E1, E2.
    + exists (m1, Err e). intros [|fuel] Hf; [lia|]. cbn [CachedRoundTrip]. now rewrite E1.
  - intros rt gen c chal c1 cnonce w1 m2 authh w3 consumed resp Ht Hg Hc.
    destruct m as [w r c']. cbn [authCache req world] in *. subst c'.
    now apply pass_stale.
  - intros m1 resp. apply pass_return_401.
  - intros m1 E1.
    pose proof (pass_recurse_inv t m m1 E1) as (Hh & Hc & Hl & _ & _ & Hb).
    pose proof (pass_after_recurse t m m1 E1) as Hmiss.
    repeat split; auto.
    + intros m2. now apply pass_miss_returns.
    + intros fuel m2 resp E2. cbn [CachedRoundTrip]. now rewrite E1, E2.
    + intros fuel m2 e E2. cbn [CachedRoundTrip]. now rewrite E1, E2.
Qed.

End TransportProperties.

(** *** The transports against a model server *)

Lemma RoundTrip_probe_not_returned_witness :
  RoundTrip (U := no_wide_runes) example_rand (example_transport open_server)
    (mkMem 0%nat example_request (@None unit))
  = (mkMem 1%nat example_request None, Err (MalformedChallenge "")).
Proof.
  refine (proj1 (RoundTrip_probe_not_returned (U := no_wide_runes) example_rand
                   (example_transport open_server) open_server example_gen
                   (mkMem 0%nat example_request (@None unit))
                   (mkMem 1%nat example_request None)
                   (mkResponse 200 ∅ (NopCloser "Hello")) eq_refl eq_refl eq_refl _ eq_refl)).
  discriminate.
Defined.

Lemma CachedRoundTrip_retries_once_witness :
  exists out, forall fuel, (2 <= fuel)%nat ->
    CachedRoundTrip (U := no_wide_runes) example_rand fuel (example_transport closed_server)
      (mkMem 0%nat example_request (Some stale_cache)) = Some out.
Proof.
  exact (proj1 (CachedRoundTrip_retries_once (U := no_wide_runes) example_rand
                  (example_transport closed_server)
                  (mkMem 0%nat example_request (Some stale_cache)))).
Defined.

(** The first pass of that call ends at the recursive call, with the
    entry gone from the cache and one request made. *)
Example stale_pass_recurses :
  match CachedRoundTrip_pass (U := no_wide_runes) example_rand (example_transport closed_server)
          (mkMem 0%nat example_request (Some stale_cache)) with
  | (m, Ok Recurse) =>
      world m = 1%nat /\ authCache m = Some ∅ /\ req_Header (req m) = ∅
  | _ => False
  end.
Proof. vm_compute. repeat split; reflexivity. Qed.

(** With a stale entry in the cache and a server that rejects everything,
    the call makes three requests (the stale attempt, the probe, the new
    attempt) and returns the last 401. *)
Example CachedRoundTrip_rejected :
  match CachedRoundTrip (U := no_wide_runes) example_rand 2 (example_transport closed_server)
          (mkMem 0%nat example_request (Some stale_cache)) with
  | Some (m, Ok resp) => StatusCode resp = 401 /\ world m = 3%nat
  | _ => False
  end.
Proof. vm_compute. split; reflexivity. Qed.

(** The follow-up round trip also happens after a probe that was answered
    200, when that answer carries a challenge: two requests reach the
    server. *)
Example RoundTrip_follow_up_after_200 :
  match RoundTrip (U := no_wide_runes) example_rand (example_transport lenient_server)
          (mkMem 0%nat example_request (@None unit)) with
  | (m, Ok resp) => StatusCode resp = 200 /\ world m = 2%nat
  | _ => False
  end.
Proof. vm_compute. split; reflexivity. Qed.

(** With a stale entry in the cache and a server that accepts the right
    answer, the call makes three requests, returns 200 and leaves the new
    challenge in the cache. *)
Example CachedRoundTrip_self_heal :
  observed (CachedRoundTrip (U := no_wide_runes) example_rand 2
              (example_transport digest_server)
              (mkMem 0%nat example_request (Some stale_cache)))
  = Some (3%nat, 200, Some {[ "example.com,john,hello" := fresh_challenge ]}).
Proof. vm_compute. reflexivity. Qed.

(** With the right challenge in the cache the call makes one request. *)
Example CachedRoundTrip_cache_hit :
  observed (CachedRoundTrip (U := no_wide_runes) example_rand 2
              (example_transport digest_server)
              (mkMem 0%nat example_request
                 (Some {[ "example.com,john,hello" := fresh_challenge ]})))
  = Some (1%nat, 200, Some {[ "example.com,john,hello" := fresh_challenge ]}).
Proof. vm_compute. reflexivity. Qed.

(** With an empty cache the call makes two requests: the probe and the
    authenticated one. *)
Example CachedRoundTrip_cache_miss :
  observed (CachedRoundTrip (U := no_wide_runes) example_rand 2
              (example_transport digest_server)
              (mkMem 0%nat example_request (Some ∅)))
  = Some (2%nat, 200, Some {[ "example.com,john,hello" := fresh_challenge ]}).
Proof. vm_compute. reflexivity. Qed.

(* ===================================================================== *)
(** * Part IV. Further properties                                        *)
(* ===================================================================== *)

(** ** The tokenizer *)

Lemma tokenize_ok (t : tokenizer) (r : Z) : tokenizer_ok t -> tokenizer_ok (tokenize t r).
Proof.
  unfold tokenizer_ok, tokenize. intros (Hs & Hb & H0).
  destruct (state t =? 0) eqn:E0.
  - apply Z.eqb_eq in E0. destruct (H0 E0) as (Hq & Hbq & Hv).
    destruct (r =? 61); cbn [state quote backq val].
    + repeat split; try lia. all: intros; lia.
    + rewrite E0. repeat split; auto; lia.
  - apply Z.eqb_neq in E0. assert (E1 : state t = 1) by lia. rewrite E1.
    change (1 =? 1) with true. cbv iota.
    destruct (r =? 34); [|destruct (r =? 92); [|destruct (r =? 44); [destruct (quote t)|]]];
      cbn [state quote backq val]; repeat split; try lia; intros; try lia; auto.
Qed.

Lemma fold_tokenize_ok (rs : list Z) : forall t,
  tokenizer_ok t -> tokenizer_ok (fold_left tokenize rs t).
Proof.
  induction rs as [|r rs IH]; intros t Ht; [exact Ht|].
  cbn [fold_left]. apply IH. now apply tokenize_ok.
Qed.

(** X1. The loop of [parseDigest] keeps its variables consistent: after
    any input [state] is 0 or 1, [backq] is not negative, and while a key
    is being read ([state] 0) the tokenizer is outside quotes, [backq] is
    0 and the value buffer is empty.  So each pair starts from a clean
    state, whatever the pairs before it contained. *)
Theorem tokenizer_invariant (rawDigest : string) : tokenizer_ok (tokenize_all rawDigest).
Proof.
  unfold tokenize_all. apply fold_tokenize_ok.
  unfold tokenizer_ok, tokenizer_init. cbn. repeat split; auto; lia.
Qed.

Lemma tokenize_keys_only (rs : list Z) : forall t,
  state t = 0 -> no_equals rs = true ->
  fold_left tokenize rs t
  = mkTokenizer 0 (quote t) (backq t) (fold_left WriteRune rs (key t)) (val t) (keys t).
Proof.
  induction rs as [|r rs IH]; intros t Hs Hn.
  - cbn. rewrite <- Hs. now destruct t.
  - cbn [no_equals forallb] in Hn. apply andb_true_iff in Hn as [Hr Hn].
    apply negb_true_iff in Hr. cbn [fold_left].
    assert (E : tokenize t r
                = mkTokenizer 0 (quote t) (backq t) (WriteRune (key t) r) (val t) (keys t)).
    { unfold tokenize. rewrite Hs, Hr. reflexivity. }
    rewrite E. rewrite IH by (auto; reflexivity). reflexivity.
Qed.

Lemma index_singleton_empty (k k' : string) :
  index (<[k := ""]> (∅ : gmap string string)) k' = "".
Proof.
  unfold index. destruct (decide (k = k')) as [->|Hne].
  - now rewrite lookup_insert_eq.
  - now rewrite lookup_insert_ne, lookup_empty.
Qed.

(** X2. A header that passes the scheme test but has no equals sign
    after the scheme is not rejected: whatever follows the scheme is
    taken as a key without value, and every field of the challenge is
    empty.  [Digest] then refuses that challenge for its qop. *)
Theorem ParseWWWAuthenticate_without_pairs (entry : string) :
  Strings.HasPrefix (Strings.TrimSpace entry) "Digest " = true ->
  no_equals (Utf8.runes (slice_from 7 (Strings.TrimSpace entry))) = true ->
  ParseWWWAuthenticate entry = Ok empty_challenge
  /\ (forall (U : Unicode.Tables) rnd inp,
        Digest rnd empty_challenge inp = Err (UnsupportedQop "")).
Proof.
  intros Hp Hn. split.
  - unfold ParseWWWAuthenticate. cbv zeta. rewrite Hp. cbn [negb].
    unfold parseDigest, tokenize_all. cbv zeta.
    rewrite (tokenize_keys_only _ tokenizer_init eq_refl Hn).
    cbn [key val keys tokenizer_init].
    destruct (String.eqb _ "") eqn:Ek; cbn [negb].
    + reflexivity.
    + unfold store. change (Strings.HasPrefix "" dquote_string) with false. cbv iota.
      change (Strings.TrimSpace "") with "".
      unfold empty_challenge. now rewrite !index_singleton_empty.
  - intros U rnd inp. unfold Digest. cbn [Qop empty_challenge Strings.Split Digest_range].
    change (String.eqb "" "auth") with false. cbv iota. unfold UnsupportedQop.
    sprintf. reflexivity.
Qed.

Lemma ParseWWWAuthenticate_without_pairs_witness :
  ParseWWWAuthenticate "Digest realm" = Ok empty_challenge.
Proof.
  apply (ParseWWWAuthenticate_without_pairs "Digest realm"); vm_compute; reflexivity.
Defined.

(** ** The generated client nonce *)

Lemma list_ind3 {A} (P : list A -> Prop) :
  P [] -> (forall a, P [a]) -> (forall a b, P [a; b]) ->
  (forall a b c l, P l -> P (a :: b :: c :: l)) ->
  forall l, P l.
Proof.
  intros H0 H1 H2 H3.
  assert (H : forall l, P l /\ (forall a, P (a :: l)) /\ (forall a b, P (a :: b :: l))).
  { induction l as [|c l (IH0 & IH1 & IH2)]; [auto|].
    split; [apply IH1|]. split; [intros a; apply IH2|]. intros a b. now apply H3. }
  intros l. apply H.
Qed.

Lemma sym_plain (n : Z) : plain (Base64.sym n) = true.
Proof.
  unfold Base64.sym. generalize (Z.to_nat n). intros k.
  do 64 (destruct k as [|k]; [reflexivity|]). reflexivity.
Qed.

Lemma Base64_plain (l : list Z) :
  forallb plain (list_ascii_of_string (Base64.EncodeToString l)) = true.
Proof.
  induction l as [|a|a b|a b c l IH] using list_ind3.
  - reflexivity.
  - cbn [Base64.EncodeToString list_ascii_of_string forallb]. now rewrite !sym_plain.
  - cbn [Base64.EncodeToString list_ascii_of_string forallb]. now rewrite !sym_plain.
  - cbn [Base64.EncodeToString list_ascii_of_string forallb]. now rewrite !sym_plain, IH.
Qed.

Lemma Base64_length (l : list Z) :
  String.length (Base64.EncodeToString l) = (4 * ((length l + 2) / 3))%nat.
Proof.
  induction l as [|a|a b|a b c l IH] using list_ind3; try reflexivity.
  cbn [Base64.EncodeToString String.length length]. rewrite IH.
  replace (S (S (S (length l))) + 2)%nat with ((length l + 2) + 1 * 3)%nat by lia.
  rewrite Nat.div_add by lia. lia.
Qed.

(** X3. The client nonce [newCnonce] builds from an n-byte buffer has
    4 * ceil(2n / 3) characters, 44 for the 16 bytes it reads, all of
    them printable ASCII other than the double quote and the backslash:
    it is never empty and [strconv.Quote] puts it between quotes
    unchanged. *)
Theorem newCnonce_shape (U : Unicode.Tables) (buf : list Z) :
  String.length (newCnonce buf) = (4 * ((2 * length buf + 2) / 3))%nat
  /\ (length buf = 16%nat -> String.length (newCnonce buf) = 44%nat /\ newCnonce buf <> "")
  /\ forallb plain (list_ascii_of_string (newCnonce buf)) = true
  /\ Strconv.Quote (newCnonce buf)
     = String Strconv.dquote (newCnonce buf +:+ String Strconv.dquote "").
Proof.
  assert (Hlen : String.length (newCnonce buf) = (4 * ((2 * length buf + 2) / 3))%nat).
  { unfold newCnonce. cbv zeta.
    now rewrite Base64_length, bytes_of_string_length, EncodeToString_length. }
  split; [exact Hlen|]. split; [|split].
  - intros H16. rewrite H16 in Hlen. split; [exact Hlen|].
    intros E. rewrite E in Hlen. discriminate Hlen.
  - apply Base64_plain.
  - apply Quote_plain, Base64_plain.
Qed.

Lemma newCnonce_shape_witness :
  String.length (newCnonce (repeat 0 16)) = 44%nat /\ newCnonce (repeat 0 16) <> "".
Proof.
  exact (proj1 (proj2 (newCnonce_shape no_wide_runes (repeat 0 16))) eq_refl).
Defined.

(** ** The cache key *)

Lemma split_at_comma (s1 s2 r1 r2 : string) :
  no_comma s1 = true -> no_comma s2 = true ->
  s1 +:+ "," +:+ r1 = s2 +:+ "," +:+ r2 ->
  s1 = s2 /\ r1 = r2.
Proof.
  revert s2. induction s1 as [|c s1 IH]; intros [|d s2] H1 H2 E.
  - injection E as E. auto.
  - exfalso. injection E as Ec E. subst d.
    cbn [no_comma list_ascii_of_string forallb] in H2.
    apply andb_true_iff in H2 as [H2 _]. discriminate H2.
  - exfalso. injection E as Ec E. subst c.
    cbn [no_comma list_ascii_of_string forallb] in H1.
    apply andb_true_iff in H1 as [H1 _]. discriminate H1.
  - injection E as Ec E. subst d.
    cbn [no_comma list_ascii_of_string forallb] in H1, H2.
    apply andb_true_iff in H1 as [_ H1]. apply andb_true_iff in H2 as [_ H2].
    destruct (IH s2 H1 H2 E) as [-> ->]. auto.
Qed.

Section CacheKey.

Context {World : Type}.

(** X4. The cache key tells hosts and credentials apart as long as host
    and username contain no comma: two transports and requests with the
    same key then have the same host, username and password.  (With a
    comma in a username the key is ambiguous, see the remark below.) *)
Theorem cacheKey_injective (t1 t2 : Transport World) (r1 r2 : Request World) :
  no_comma (Hostname (req_URL r1)) = true ->
  no_comma (Hostname (req_URL r2)) = true ->
  no_comma (t_Username t1) = true ->
  no_comma (t_Username t2) = true ->
  cacheKey t1 r1 = cacheKey t2 r2 ->
  Hostname (req_URL r1) = Hostname (req_URL r2)
  /\ t_Username t1 = t_Username t2
  /\ t_Password t1 = t_Password t2.
Proof.
  intros Hh1 Hh2 Hu1 Hu2 E. unfold cacheKey in E. cbn [Strings.Join] in E.
  apply split_at_comma in E as [Eh E]; [|assumption..].
  apply split_at_comma in E as [Eu Ep]; [|assumption..]. auto.
Qed.

End CacheKey.

Lemma cacheKey_injective_witness :
  Hostname (req_URL example_request) = Hostname (req_URL example_request)
  /\ t_Username (example_transport open_server) = t_Username (example_transport closed_server)
  /\ t_Password (example_transport open_server) = t_Password (example_transport closed_server).
Proof.
  apply (cacheKey_injective (example_transport open_server) (example_transport closed_server)
           example_request example_request); reflexivity.
Defined.

(** Username "john,doe" with password "x" and username "john" with
    password "doe,x" share a cache entry. *)
Remark cacheKey_collision :
  cacheKey (mkTransport "john,doe" "x" None None : Transport nat) example_request
  = cacheKey (mkTransport "john" "doe,x" None None : Transport nat) example_request.
Proof. reflexivity. Qed.

(** ** Well-formed pairs *)

Lemma byte_of_ascii_range (c : ascii) : 0 <= byte_of_ascii c < 256.
Proof.
  unfold byte_of_ascii. pose proof (N_ascii_bounded c) as Hb. lia.
Qed.

Lemma bytes_of_string_app (a b : string) :
  bytes_of_string (a +:+ b) = bytes_of_string a ++ bytes_of_string b.
Proof.
  induction a as [|c a IH]; [reflexivity|].
  change (String c a +:+ b) with (String c (a +:+ b)). cbn [bytes_of_string app]. now rewrite IH.
Qed.

Lemma string_of_bytes_of_string (s : string) : string_of_bytes (bytes_of_string s) = s.
Proof.
  induction s as [|c s IH]; [reflexivity|].
  cbn [bytes_of_string string_of_bytes]. now rewrite ascii_of_byte_of_ascii, IH.
Qed.

Lemma DecodeRune_ascii (c : ascii) (t : list Z) :
  ascii7 c = true -> Utf8.DecodeRune (byte_of_ascii c :: t) = (byte_of_ascii c, 1%nat).
Proof. unfold ascii7, Utf8.DecodeRune, Utf8.RuneSelf. now intros ->. Qed.

Lemma range_loop_ascii (s : string) : forall fuel,
  forallb ascii7 (list_ascii_of_string s) = true ->
  (String.length s <= fuel)%nat ->
  Utf8.range_loop fuel (bytes_of_string s) = bytes_of_string s.
Proof.
  induction s as [|c s IH]; intros fuel Ha Hf.
  - destruct fuel; reflexivity.
  - destruct fuel as [|fuel]; [cbn in Hf; lia|].
    cbn [list_ascii_of_string forallb] in Ha. apply andb_true_iff in Ha as [Hc Ha].
    cbn [bytes_of_string Utf8.range_loop]. rewrite DecodeRune_ascii by exact Hc.
    cbn [drop]. rewrite IH by (auto; cbn in Hf; lia). reflexivity.
Qed.

Lemma runes_ascii (s : string) :
  forallb ascii7 (list_ascii_of_string s) = true -> Utf8.runes s = bytes_of_string s.
Proof.
  intros Ha. unfold Utf8.runes. cbv zeta. apply range_loop_ascii; [exact Ha|].
  now rewrite bytes_of_string_length.
Qed.

Lemma WriteRune_ascii (buf : string) (c : ascii) :
  ascii7 c = true -> WriteRune buf (byte_of_ascii c) = buf +:+ String c "".
Proof.
  intros Hc. unfold WriteRune, Utf8.EncodeRune, Utf8.between.
  pose proof (byte_of_ascii_range c) as Hr. unfold ascii7 in Hc. apply Z.ltb_lt in Hc.
  replace (0 <=? byte_of_ascii c) with true by (symmetry; apply Z.leb_le; lia).
  replace (byte_of_ascii c <=? 127) with true by (symmetry; apply Z.leb_le; lia).
  cbn [andb string_of_bytes]. now rewrite ascii_of_byte_of_ascii.
Qed.

Lemma append_cons_r (a : string) (c : ascii) (b : string) :
  (a +:+ String c "") +:+ b = a +:+ String c b.
Proof. now rewrite append_assoc. Qed.

Lemma fold_WriteRune_ascii (s : string) : forall buf,
  forallb ascii7 (list_ascii_of_string s) = true ->
  fold_left WriteRune (bytes_of_string s) buf = buf +:+ s.
Proof.
  induction s as [|c s IH]; intros buf Ha.
  - cbn. now rewrite append_nil_r.
  - cbn [list_ascii_of_string forallb] in Ha. apply andb_true_iff in Ha as [Hc Ha].
    cbn [bytes_of_string fold_left]. rewrite WriteRune_ascii by exact Hc.
    rewrite IH by exact Ha. apply append_cons_r.
Qed.

(** Bytes 0x21 to 0x7E. *)
Lemma visible_bytes (s : string) :
  forallb visible (list_ascii_of_string s) = true ->
  Forall (fun b => 0x21 <= b <= 0x7E) (bytes_of_string s).
Proof.
  induction s as [|c s IH]; intros Hv; [constructor|].
  cbn [list_ascii_of_string forallb] in Hv. apply andb_true_iff in Hv as [Hc Hv].
  cbn [bytes_of_string]. constructor; [|auto].
  unfold visible, Utf8.between in Hc. apply andb_true_iff in Hc as [H1 H2].
  apply Z.leb_le in H1, H2. lia.
Qed.

Lemma scanLeft_visible (l : list Z) :
  Forall (fun b => 0x21 <= b <= 0x7E) l -> Strings.scanLeft l = (l, false).
Proof.
  intros Hl. destruct Hl as [|b l Hb Hl]; [reflexivity|].
  cbn [Strings.scanLeft]. unfold Utf8.RuneSelf, Strings.asciiSpace, Utf8.between.
  replace (128 <=? b) with false by (symmetry; apply Z.leb_gt; lia).
  replace (b <=? 13) with false by (symmetry; apply Z.leb_gt; lia).
  replace (b =? 32) with false by (symmetry; apply Z.eqb_neq; lia).
  now rewrite andb_false_r.
Qed.

Lemma scanLeft_spaces (n : nat) (l : list Z) :
  Strings.scanLeft (bytes_of_string (spaces n) ++ l) = Strings.scanLeft l.
Proof. induction n as [|n IH]; [reflexivity|]. cbn [spaces bytes_of_string app]. exact IH. Qed.

Lemma TrimSpace_spaces_visible (n : nat) (k : string) :
  forallb visible (list_ascii_of_string k) = true ->
  Strings.TrimSpace (spaces n +:+ k) = k.
Proof.
  intros Hv. apply visible_bytes in Hv.
  unfold Strings.TrimSpace, Strings.TrimSpaceBytes.
  rewrite bytes_of_string_app, scanLeft_spaces, scanLeft_visible by exact Hv.
  rewrite scanLeft_visible by (now apply Forall_rev).
  now rewrite rev_involutive, string_of_bytes_of_string.
Qed.

Lemma plain_bytes (s : string) :
  forallb plain (list_ascii_of_string s) = true ->
  Forall (fun b => 0x20 <= b <= 0x7E /\ b <> 0x22 /\ b <> 0x5C) (bytes_of_string s).
Proof.
  induction s as [|c s IH]; intros Hv; [constructor|].
  cbn [list_ascii_of_string forallb] in Hv. apply andb_true_iff in Hv as [Hc Hv].
  cbn [bytes_of_string]. constructor; [|auto].
  unfold plain, Utf8.between in Hc. cbv zeta in Hc.
  rewrite !andb_true_iff, !negb_true_iff, !Z.eqb_neq, !Z.leb_le in Hc. lia.
Qed.

Lemma contains_none (l : list Z) (c : Z) :
  Forall (fun b => b <> c) l -> Strconv.contains l c = false.
Proof.
  induction 1 as [|b l Hb Hl IH]; [reflexivity|].
  unfold Strconv.contains in *. cbn [existsb]. rewrite IH, orb_false_r. apply Z.eqb_neq. lia.
Qed.

Lemma valid_loop_ascii (l : list Z) : forall fuel,
  Forall (fun b => 0 <= b < 0x80) l -> Utf8.valid_loop fuel l = true.
Proof.
  induction l as [|b l IH]; intros fuel Hl; [destruct fuel; reflexivity|].
  destruct fuel as [|fuel]; [reflexivity|].
  inversion Hl as [|? ? Hb Hl']; subst.
  cbn [Utf8.valid_loop Utf8.DecodeRune]. unfold Utf8.RuneSelf, Utf8.RuneError.
  replace (b <? 128) with true by (symmetry; apply Z.ltb_lt; lia).
  replace (b =? 65533) with false by (symmetry; apply Z.eqb_neq; lia).
  cbn [andb drop]. now apply IH.
Qed.

(** [strconv.Unquote] returns what is between the quotes when that is
    printable ASCII without double quote and backslash. *)
Lemma Unquote_plain (v : string) :
  forallb plain (list_ascii_of_string v) = true ->
  Strconv.Unquote (dquote_string +:+ v +:+ dquote_string) = Ok v.
Proof.
  intros Hp. apply plain_bytes in Hp.
  unfold Strconv.Unquote. rewrite !bytes_of_string_app.
  change (bytes_of_string dquote_string) with [0x22]. cbn [app].
  assert (E : Strconv.UnquoteBytes (0x22 :: bytes_of_string v ++ [0x22])
              = Some (bytes_of_string v)).
  { unfold Strconv.UnquoteBytes.
    destruct (bytes_of_string v ++ [0x22]) as [|b0 rest0] eqn:Er.
    { destruct (bytes_of_string v); discriminate Er. }
    rewrite <- Er. rewrite last_last, removelast_last.
    change (0x22 =? 0x22) with true. change (0x22 =? 0x60) with false.
    change (0x22 =? 0x27) with false. cbn [negb orb].
    rewrite (contains_none _ 0x0A) by (eapply Forall_impl; [exact Hp|cbn; intros; lia]).
    rewrite (contains_none _ 0x5C) by (eapply Forall_impl; [exact Hp|cbn; intros; lia]).
    rewrite (contains_none _ 0x22) by (eapply Forall_impl; [exact Hp|cbn; intros; lia]).
    unfold Utf8.ValidString.
    rewrite valid_loop_ascii by (eapply Forall_impl; [exact Hp|cbn; intros; lia]).
    reflexivity. }
  rewrite E. now rewrite string_of_bytes_of_string.
Qed.

Lemma byte_of_ascii_inj (c d : ascii) : byte_of_ascii c = byte_of_ascii d -> c = d.
Proof.
  intros E. rewrite <- (ascii_of_byte_of_ascii c), <- (ascii_of_byte_of_ascii d). now rewrite E.
Qed.

Lemma Ascii_eqb_byte (c d : ascii) : Ascii.eqb c d = (byte_of_ascii c =? byte_of_ascii d).
Proof.
  destruct (Ascii.eqb_spec c d) as [->|Hn]; [now rewrite Z.eqb_refl|].
  symmetry. apply Z.eqb_neq. intros E. now apply byte_of_ascii_inj in E.
Qed.

Lemma forallb_chars_impl (p q : ascii -> bool) (s : string) :
  (forall c, p c = true -> q c = true) ->
  forallb p (list_ascii_of_string s) = true -> forallb q (list_ascii_of_string s) = true.
Proof.
  intros Hpq. rewrite !forallb_forall. auto.
Qed.

Lemma chars_spaces (p : ascii -> bool) (n : nat) :
  p " "%char = true -> forallb p (list_ascii_of_string (spaces n)) = true.
Proof.
  intros Hp. induction n as [|n IH]; [reflexivity|].
  cbn [spaces list_ascii_of_string forallb]. now rewrite Hp, IH.
Qed.

Lemma plain_byte (c : ascii) :
  plain c = true ->
  0x20 <= byte_of_ascii c <= 0x7E /\ byte_of_ascii c <> 0x22 /\ byte_of_ascii c <> 0x5C.
Proof.
  unfold plain, Utf8.between. cbv zeta.
  rewrite !andb_true_iff, !negb_true_iff, !Z.eqb_neq, !Z.leb_le. lia.
Qed.

Lemma plain_ascii7 (c : ascii) : plain c = true -> ascii7 c = true.
Proof. intros Hp. apply plain_byte in Hp. unfold ascii7. apply Z.ltb_lt. lia. Qed.

Lemma visible_ascii7 (c : ascii) : visible c = true -> ascii7 c = true.
Proof.
  unfold visible, Utf8.between, ascii7. rewrite andb_true_iff, !Z.leb_le. intros. apply Z.ltb_lt. lia.
Qed.

Lemma no_equals_chars (s : string) :
  forallb (fun c => negb (Ascii.eqb c "=")) (list_ascii_of_string s) = true ->
  no_equals (bytes_of_string s) = true.
Proof.
  induction s as [|c s IH]; [reflexivity|].
  cbn [list_ascii_of_string forallb bytes_of_string no_equals].
  rewrite andb_true_iff. intros [Hc Hs]. rewrite Ascii_eqb_byte in Hc.
  change (byte_of_ascii "=") with 0x3D in Hc. rewrite Hc. exact (IH Hs).
Qed.

(** Inside a value, bytes other than the double quote and the backslash
    are appended; a comma too, between quotes. *)
Lemma tokenize_value (s : string) : forall t,
  state t = 1 -> backq t = 0 ->
  forallb (fun c => plain c && (quote t || negb (Ascii.eqb c ","))) (list_ascii_of_string s)
  = true ->
  fold_left tokenize (bytes_of_string s) t
  = mkTokenizer 1 (quote t) 0 (key t) (val t +:+ s) (keys t).
Proof.
  induction s as [|c s IH]; intros t Hs Hb Hc.
  - cbn [bytes_of_string fold_left]. rewrite append_nil_r, <- Hs, <- Hb. now destruct t.
  - cbn [list_ascii_of_string forallb] in Hc. apply andb_true_iff in Hc as [Hc Hrest].
    apply andb_true_iff in Hc as [Hp Hcomma].
    assert (E : tokenize t (byte_of_ascii c)
                = mkTokenizer 1 (quote t) 0 (key t) (val t +:+ String c "") (keys t)).
    { pose proof (plain_ascii7 _ Hp) as H7. apply plain_byte in Hp as (_ & Hq & Hbs).
      unfold tokenize. rewrite Hs, Hb. change (1 =? 0) with false. change (1 =? 1) with true.
      apply Z.eqb_neq in Hq, Hbs. rewrite Hq, Hbs.
      rewrite Ascii_eqb_byte in Hcomma. change (byte_of_ascii ",") with 0x2C in Hcomma.
      destruct (byte_of_ascii c =? 0x2C) eqn:Ecomma.
      - rewrite orb_false_r in Hcomma. rewrite Hcomma. now rewrite WriteRune_ascii.
      - now rewrite WriteRune_ascii. }
    cbn [bytes_of_string fold_left]. rewrite E. rewrite IH by (try reflexivity; exact Hrest).
    cbn [quote key val keys]. now rewrite append_cons_r.
Qed.

(** On a double quote outside a run of backslashes the tokenizer flips
    [quote]. *)
Lemma tokenize_dquote (t : tokenizer) :
  state t = 1 -> backq t = 0 ->
  tokenize t 0x22
  = mkTokenizer 1 (negb (quote t)) 0 (key t) (val t +:+ dquote_string) (keys t).
Proof.
  intros Hs Hb. unfold tokenize. rewrite Hs, Hb. reflexivity.
Qed.

(** One pair, from the start of a key to the end of its value. *)
Lemma tokenize_field (f : field) (m : gmap string string) :
  field_ok f = true ->
  fold_left tokenize (bytes_of_string (field_text f)) (mkTokenizer 0 false 0 "" "" m)
  = mkTokenizer 1 false 0 (spaces (f_lead f) +:+ f_key f) (value_text (f_value f)) m.
Proof.
  intros Hok. unfold field_ok, key_ok in Hok.
  apply andb_true_iff in Hok as [Hk Hv]. apply andb_true_iff in Hk as [_ Hk].
  unfold field_text. rewrite <- append_assoc.
  rewrite (bytes_of_string_app (spaces (f_lead f) +:+ f_key f)), fold_left_app.
  rewrite (tokenize_keys_only (bytes_of_string (spaces (f_lead f) +:+ f_key f)));
    [|reflexivity|].
  2:{ apply no_equals_chars. rewrite forallb_chars_app, chars_spaces by reflexivity.
      eapply forallb_chars_impl; [|exact Hk]. unfold key_char. intros c Hc.
      now apply andb_true_iff in Hc as [_ Hc]. }
  cbn [quote backq key val keys].
  rewrite fold_WriteRune_ascii.
  2:{ rewrite forallb_chars_app, chars_spaces by reflexivity.
      eapply forallb_chars_impl; [|exact Hk]. unfold key_char. intros c Hc.
      apply andb_true_iff in Hc as [Hc _]. now apply visible_ascii7. }
  change ("" +:+ (spaces (f_lead f) +:+ f_key f)) with (spaces (f_lead f) +:+ f_key f).
  rewrite (bytes_of_string_app "="), fold_left_app.
  change (fold_left tokenize (bytes_of_string "=") ?t) with (tokenize t 0x3D).
  unfold tokenize at 2. cbn [state quote backq key val keys]. change (0 =? 0) with true.
  change (0x3D =? 0x3D) with true. cbv iota.
  destruct (f_value f) as [v|v]; cbn [value_text].
  - rewrite (bytes_of_string_app dquote_string), fold_left_app.
    change (fold_left tokenize (bytes_of_string dquote_string) ?t) with (tokenize t 0x22).
    rewrite tokenize_dquote by reflexivity. cbn [state quote backq key val keys negb].
    rewrite bytes_of_string_app, fold_left_app.
    rewrite (tokenize_value v); [|reflexivity|reflexivity|].
    2:{ cbn [quote orb]. eapply forallb_chars_impl; [|exact Hv]. intros c ->. reflexivity. }
    cbn [state quote backq key val keys].
    change (fold_left tokenize (bytes_of_string dquote_string) ?t) with (tokenize t 0x22).
    rewrite tokenize_dquote by reflexivity. cbn [state quote backq key val keys negb].
    now rewrite append_assoc.
  - rewrite (tokenize_value v); [reflexivity|reflexivity|reflexivity|].
    cbn [quote orb]. eapply forallb_chars_impl; [|exact Hv]. unfold bare_char. intros c Hc.
    apply andb_true_iff in Hc as [Hc Hcomma]. apply andb_true_iff in Hc as [_ Hp].
    now rewrite Hp, Hcomma.
Qed.

Lemma HasPrefix_bare (v : string) :
  forallb bare_char (list_ascii_of_string v) = true ->
  Strings.HasPrefix v dquote_string = false.
Proof.
  destruct v as [|c v]; [reflexivity|].
  cbn [list_ascii_of_string forallb]. rewrite andb_true_iff. intros [Hc _].
  unfold bare_char in Hc. apply andb_true_iff in Hc as [Hc _].
  apply andb_true_iff in Hc as [_ Hp]. apply plain_byte in Hp as (_ & Hq & _).
  unfold Strings.HasPrefix, dquote_string. cbn [String.prefix].
  destruct (ascii_dec Strconv.dquote c) as [<-|Hn]; [|reflexivity].
  now contradiction Hq.
Qed.

Lemma HasPrefix_quoted (s : string) :
  Strings.HasPrefix (dquote_string +:+ s) dquote_string = true.
Proof.
  unfold Strings.HasPrefix, dquote_string.
  change (String Strconv.dquote "" +:+ s) with (String Strconv.dquote s).
  cbn [String.prefix]. destruct (ascii_dec Strconv.dquote Strconv.dquote); [|contradiction].
  now destruct s.
Qed.

(** What the parser keeps of a pair: the key without its blanks, the
    value without its quotes. *)
Lemma store_field (f : field) (m : gmap string string) :
  field_ok f = true ->
  store (spaces (f_lead f) +:+ f_key f) (value_text (f_value f)) m
  = <[f_key f := value_of (f_value f)]> m.
Proof.
  intros Hok. unfold field_ok, key_ok in Hok.
  apply andb_true_iff in Hok as [Hk Hv]. apply andb_true_iff in Hk as [_ Hk].
  assert (Hkey : Strings.TrimSpace (spaces (f_lead f) +:+ f_key f) = f_key f).
  { apply TrimSpace_spaces_visible. eapply forallb_chars_impl; [|exact Hk].
    unfold key_char. intros c Hc. now apply andb_true_iff in Hc as [Hc _]. }
  unfold store. rewrite Hkey. destruct (f_value f) as [v|v]; cbn [value_text value_of].
  - rewrite HasPrefix_quoted. now rewrite Unquote_plain.
  - rewrite HasPrefix_bare by exact Hv.
    change v with (spaces 0 +:+ v) at 1. rewrite TrimSpace_spaces_visible; [reflexivity|].
    eapply forallb_chars_impl; [|exact Hv]. unfold bare_char. intros c Hc.
    apply andb_true_iff in Hc as [Hc _]. now apply andb_true_iff in Hc as [Hc _].
Qed.

Lemma key_not_empty (f : field) :
  field_ok f = true -> String.eqb (spaces (f_lead f) +:+ f_key f) "" = false.
Proof.
  intros Hok. unfold field_ok, key_ok in Hok.
  apply andb_true_iff in Hok as [Hk _]. apply andb_true_iff in Hk as [Hk _].
  apply negb_true_iff in Hk. destruct (f_key f) as [|c k]; [discriminate Hk|].
  destruct (f_lead f); reflexivity.
Qed.

Lemma last_cons_default {A : Type} (l : list A) : forall (x d d' : A),
  List.last (x :: l) d = List.last (x :: l) d'.
Proof.
  induction l as [|y l IH]; intros x d d'; [reflexivity|].
  change (List.last (x :: y :: l) d) with (List.last (y :: l) d).
  change (List.last (x :: y :: l) d') with (List.last (y :: l) d'). apply IH.
Qed.

(** The loop of [parseDigest] over a list of pairs joined by commas stops
    inside the last pair, with the earlier pairs stored. *)
Lemma tokenize_fields (fs : list field) : forall (f : field) (m : gmap string string),
  forallb field_ok (f :: fs) = true ->
  exists l : field,
    fold_left tokenize (bytes_of_string (Strings.Join (map field_text (f :: fs)) ","))
      (mkTokenizer 0 false 0 "" "" m)
    = mkTokenizer 1 false 0 (spaces (f_lead l) +:+ f_key l) (value_text (f_value l))
        (fold_left (fun m f => <[f_key f := value_of (f_value f)]> m) (removelast (f :: fs)) m)
    /\ field_ok l = true
    /\ List.last (f :: fs) f = l.
Proof.
  induction fs as [|g fs IH]; intros f m Hok.
  - cbn [forallb] in Hok. rewrite andb_true_r in Hok.
    exists f. cbn [map Strings.Join removelast fold_left List.last].
    now rewrite tokenize_field.
  - cbn [forallb] in Hok. apply andb_true_iff in Hok as [Hf Hrest].
    destruct (IH g (<[f_key f := value_of (f_value f)]> m) Hrest) as (l & Hl & Hlok & Hlast).
    exists l. split; [|split; [exact Hlok|]].
    2:{ rewrite <- Hlast. change (List.last (f :: g :: fs) f) with (List.last (g :: fs) f).
        apply last_cons_default. }
    change (Strings.Join (map field_text (f :: g :: fs)) ",")
      with (field_text f +:+ "," +:+ Strings.Join (map field_text (g :: fs)) ",").
    rewrite bytes_of_string_app, fold_left_app, tokenize_field by exact Hf.
    rewrite (bytes_of_string_app ","), fold_left_app.
    change (fold_left tokenize (bytes_of_string ",") ?t) with (tokenize t 0x2C).
    unfold tokenize at 2. cbn [state quote backq key val keys]. change (1 =? 0) with false.
    change (1 =? 1) with true. change (0x2C =? 0x22) with false.
    change (0x2C =? 0x5C) with false. change (0x2C =? 0x2C) with true. cbv iota.
    rewrite store_field by exact Hf. exact Hl.
Qed.

Lemma fold_left_removelast {A B : Type} (g : A -> B -> A) (l : list B) (d : B) (a : A) :
  l <> [] -> g (fold_left g (removelast l) a) (List.last l d) = fold_left g l a.
Proof.
  revert a. induction l as [|x l IH]; intros a Hl; [contradiction|].
  destruct l as [|y l]; [reflexivity|].
  change (removelast (x :: y :: l)) with (x :: removelast (y :: l)).
  change (List.last (x :: y :: l) d) with (List.last (y :: l) d).
  cbn [fold_left]. cbn [fold_left] in IH. now rewrite IH.
Qed.

Lemma field_text_ascii (f : field) :
  field_ok f = true -> forallb ascii7 (list_ascii_of_string (field_text f)) = true.
Proof.
  intros Hok. unfold field_ok, key_ok in Hok.
  apply andb_true_iff in Hok as [Hk Hv]. apply andb_true_iff in Hk as [_ Hk].
  unfold field_text. rewrite !forallb_chars_app, chars_spaces by reflexivity.
  rewrite (forallb_chars_impl key_char ascii7 (f_key f)); [| |exact Hk].
  2:{ unfold key_char. intros c Hc. apply andb_true_iff in Hc as [Hc _]. now apply visible_ascii7. }
  cbn [andb list_ascii_of_string forallb]. change (ascii7 "=") with true. cbn [andb].
  destruct (f_value f) as [v|v]; cbn [value_text].
  - rewrite !forallb_chars_app. rewrite (forallb_chars_impl plain ascii7 v plain_ascii7 Hv).
    reflexivity.
  - eapply forallb_chars_impl; [|exact Hv]. unfold bare_char. intros c Hc.
    apply andb_true_iff in Hc as [Hc _]. apply andb_true_iff in Hc as [Hc _].
    now apply visible_ascii7.
Qed.

Lemma Join_ascii (fs : list field) :
  forallb field_ok fs = true ->
  forallb ascii7 (list_ascii_of_string (Strings.Join (map field_text fs) ",")) = true.
Proof.
  induction fs as [|f fs IH]; intros Hok; [reflexivity|].
  cbn [forallb] in Hok. apply andb_true_iff in Hok as [Hf Hrest].
  destruct fs as [|g fs]; [now apply field_text_ascii|].
  change (Strings.Join (map field_text (f :: g :: fs)) ",")
    with (field_text f +:+ "," +:+ Strings.Join (map field_text (g :: fs)) ",").
  rewrite !forallb_chars_app, field_text_ascii, IH by assumption. reflexivity.
Qed.

Lemma parseDigest_fields_map (fs : list field) :
  forallb field_ok fs = true ->
  parseDigest ("Digest " +:+ Strings.Join (map field_text fs) ",") = fields_map fs.
Proof.
  intros Hok. unfold parseDigest, tokenize_all.
  change (slice_from 7 ("Digest " +:+ ?s)) with s.
  rewrite runes_ascii by now apply Join_ascii.
  destruct fs as [|f fs]; [reflexivity|]. unfold tokenizer_init.
  destruct (tokenize_fields fs f ∅ Hok) as (l & -> & Hl & Hlast).
  cbn [key val keys]. rewrite key_not_empty by exact Hl. cbn [negb].
  rewrite store_field by exact Hl. unfold fields_map. rewrite <- Hlast.
  now rewrite (fold_left_removelast (fun m f => <[f_key f := value_of (f_value f)]> m)).
Qed.

Lemma fields_map_snoc (fs : list field) (f : field) :
  fields_map (fs ++ [f]) = <[f_key f := value_of (f_value f)]> (fields_map fs).
Proof. unfold fields_map. now rewrite fold_left_app. Qed.

Lemma fields_map_lookup (fs : list field) (k : string) :
  fields_map fs !! k = last_value fs k.
Proof.
  induction fs as [|f fs IH] using rev_ind; [reflexivity|].
  rewrite fields_map_snoc. unfold last_value in *. rewrite rev_app_distr. cbn [rev app find].
  destruct (String.eqb_spec (f_key f) k) as [->|Hn].
  - now rewrite lookup_insert_eq.
  - now rewrite lookup_insert_ne.
Qed.

(** X5. [parseDigest] reads back a list of well-formed pairs joined by
    commas: a key is mapped to the value of the last pair that has it,
    without the blanks before the key and without the quotes around the
    value, and a key that no pair has is not in the map.  Blanks and
    commas between quotes belong to the value. *)
Theorem parseDigest_fields (fs : list field) (k : string) :
  forallb field_ok fs = true ->
  parseDigest ("Digest " +:+ Strings.Join (map field_text fs) ",") !! k = last_value fs k.
Proof. intros Hok. rewrite parseDigest_fields_map by exact Hok. apply fields_map_lookup. Qed.

Lemma parseDigest_fields_witness :
  parseDigest
    ("Digest "
     +:+ Strings.Join
           (map field_text
              [mkField 0 "realm" (Quoted "a, b"); mkField 1 "qop" (Bare "auth");
               mkField 1 "realm" (Quoted "c")]) ",") !! "realm"
  = Some "c".
Proof.
  exact (parseDigest_fields
           [mkField 0 "realm" (Quoted "a, b"); mkField 1 "qop" (Bare "auth");
            mkField 1 "realm" (Quoted "c")] "realm" eq_refl).
Defined.

(** *** A whole header *)

Lemma scanLeft_head (b : Z) (l : list Z) :
  0x21 <= b <= 0x7E -> Strings.scanLeft (b :: l) = (b :: l, false).
Proof.
  intros Hb. cbn [Strings.scanLeft]. unfold Utf8.RuneSelf, Strings.asciiSpace, Utf8.between.
  replace (128 <=? b) with false by (symmetry; apply Z.leb_gt; lia).
  replace (b <=? 13) with false by (symmetry; apply Z.leb_gt; lia).
  replace (b =? 32) with false by (symmetry; apply Z.eqb_neq; lia).
  now rewrite andb_false_r.
Qed.

Lemma spaces_snoc (n : nat) :
  bytes_of_string (spaces n) ++ [0x20] = 0x20 :: bytes_of_string (spaces n).
Proof.
  induction n as [|n IH]; [reflexivity|].
  cbn [spaces bytes_of_string app]. change (byte_of_ascii " ") with 0x20. now rewrite IH.
Qed.

Lemma rev_spaces (n : nat) : rev (bytes_of_string (spaces n)) = bytes_of_string (spaces n).
Proof.
  induction n as [|n IH]; [reflexivity|].
  cbn [spaces bytes_of_string rev]. change (byte_of_ascii " ") with 0x20.
  now rewrite IH, spaces_snoc.
Qed.

(** [strings.TrimSpace] removes the blanks around bytes that start and
    end with visible ASCII. *)
Lemma TrimSpaceBytes_padded (n m : nat) (b : Z) (l : list Z) :
  0x21 <= b <= 0x7E -> ends_visible (b :: l) ->
  Strings.TrimSpaceBytes (bytes_of_string (spaces n) ++ (b :: l) ++ bytes_of_string (spaces m))
  = b :: l.
Proof.
  intros Hb (l' & d & El & Hd). unfold Strings.TrimSpaceBytes.
  rewrite scanLeft_spaces. change ((b :: l) ++ ?x) with (b :: (l ++ x)).
  rewrite scanLeft_head by exact Hb.
  change (b :: (l ++ ?x)) with ((b :: l) ++ x).
  rewrite rev_app_distr, rev_spaces, scanLeft_spaces.
  rewrite El at 1. rewrite rev_app_distr. cbn [rev app].
  rewrite scanLeft_head by exact Hd.
  change (d :: rev l') with (rev [d] ++ rev l'). rewrite <- rev_app_distr, rev_involutive.
  now symmetry.
Qed.

Lemma ends_visible_app (a b : list Z) : ends_visible b -> ends_visible (a ++ b).
Proof.
  intros (l' & d & -> & Hd). exists (a ++ l'), d. now rewrite app_assoc.
Qed.

Lemma ends_visible_all (l : list Z) :
  l <> [] -> Forall (fun b => 0x21 <= b <= 0x7E) l -> ends_visible l.
Proof.
  intros Hn Hl. destruct (exists_last Hn) as (l' & d & ->).
  exists l', d. split; [reflexivity|].
  apply Forall_app in Hl as [_ Hd]. now inversion Hd.
Qed.

Lemma field_text_ends (f : field) :
  field_ok f = true -> ends_visible (bytes_of_string (field_text f)).
Proof.
  intros Hok. unfold field_ok in Hok. apply andb_true_iff in Hok as [_ Hv].
  unfold field_text. rewrite <- append_assoc.
  rewrite (bytes_of_string_app (spaces (f_lead f) +:+ f_key f)). apply ends_visible_app.
  destruct (f_value f) as [v|v]; cbn [value_text].
  - rewrite <- !append_assoc, bytes_of_string_app. apply ends_visible_app.
    exists [], 0x22. split; [reflexivity|lia].
  - destruct v as [|c v].
    + exists [], 0x3D. split; [reflexivity|lia].
    + rewrite bytes_of_string_app. apply ends_visible_app. apply ends_visible_all; [discriminate|].
      apply visible_bytes. eapply forallb_chars_impl; [|exact Hv]. unfold bare_char.
      intros a Ha. apply andb_true_iff in Ha as [Ha _]. now apply andb_true_iff in Ha as [Ha _].
Qed.

Lemma Join_ends (fs : list field) : forall f,
  forallb field_ok (f :: fs) = true ->
  ends_visible (bytes_of_string (Strings.Join (map field_text (f :: fs)) ",")).
Proof.
  induction fs as [|g fs IH]; intros f Hok;
    cbn [forallb] in Hok; apply andb_true_iff in Hok as [Hf Hrest].
  - now apply field_text_ends.
  - change (Strings.Join (map field_text (f :: g :: fs)) ",")
      with (field_text f +:+ "," +:+ Strings.Join (map field_text (g :: fs)) ",").
    rewrite <- append_assoc, bytes_of_string_app. apply ends_visible_app. now apply IH.
Qed.

Lemma TrimSpace_header (n m : nat) (f : field) (fs : list field) :
  forallb field_ok (f :: fs) = true ->
  Strings.TrimSpace
    (spaces n +:+ ("Digest " +:+ Strings.Join (map field_text (f :: fs)) ",") +:+ spaces m)
  = "Digest " +:+ Strings.Join (map field_text (f :: fs)) ",".
Proof.
  intros Hok. unfold Strings.TrimSpace. rewrite !bytes_of_string_app.
  change (bytes_of_string "Digest ") with (0x44 :: bytes_of_string "igest ").
  change ((0x44 :: ?a) ++ ?b) with (0x44 :: (a ++ b)).
  rewrite TrimSpaceBytes_padded; [| lia |].
  - change (0x44 :: (bytes_of_string "igest " ++ ?b)) with (bytes_of_string "Digest " ++ b).
    now rewrite <- bytes_of_string_app, string_of_bytes_of_string.
  - change (0x44 :: (bytes_of_string "igest " ++ ?b)) with (bytes_of_string "Digest " ++ b).
    apply ends_visible_app. now apply Join_ends.
Qed.

Lemma TrimSpace_header_trimmed (fs : list field) :
  fs <> [] ->
  forallb field_ok fs = true ->
  Strings.TrimSpace ("Digest " +:+ Strings.Join (map field_text fs) ",")
  = "Digest " +:+ Strings.Join (map field_text fs) ",".
Proof.
  destruct fs as [|f fs]; [contradiction|]. intros _ Hok.
  pose proof (TrimSpace_header 0 0 f fs Hok) as Ht.
  cbn [spaces] in Ht. rewrite append_nil_r in Ht. exact Ht.
Qed.

Lemma ParseWWWAuthenticate_trimmed (entry : string) (fs : list field) :
  Strings.TrimSpace entry = "Digest " +:+ Strings.Join (map field_text fs) "," ->
  forallb field_ok fs = true ->
  ParseWWWAuthenticate entry = Ok (challenge_of (fields_map fs)).
Proof.
  intros Et Hok. unfold ParseWWWAuthenticate. rewrite Et.
  change (Strings.HasPrefix ("Digest " +:+ ?s) "Digest ") with (Strings.HasPrefix s "").
  replace (Strings.HasPrefix (Strings.Join (map field_text fs) ",") "") with true
    by (unfold Strings.HasPrefix; now destruct (Strings.Join _ _)).
  cbn [negb]. rewrite (parseDigest_fields_map fs) by exact Hok. reflexivity.
Qed.

(** X6. [ParseWWWAuthenticate] accepts a header made of blanks, the word
    Digest, a blank, one or more well-formed pairs joined by commas, and
    blanks: the challenge holds, for each of its seven keys, the value of
    the last pair with that key, and the empty string when there is none.
    Pairs with other keys are ignored. *)
Theorem ParseWWWAuthenticate_fields (n m : nat) (f : field) (fs : list field) :
  forallb field_ok (f :: fs) = true ->
  exists wwwa,
    ParseWWWAuthenticate
      (spaces n +:+ ("Digest " +:+ Strings.Join (map field_text (f :: fs)) ",") +:+ spaces m)
    = Ok wwwa
    /\ Realm wwwa = default "" (last_value (f :: fs) "realm")
    /\ Domain wwwa = default "" (last_value (f :: fs) "domain")
    /\ Nonce wwwa = default "" (last_value (f :: fs) "nonce")
    /\ Opaque wwwa = default "" (last_value (f :: fs) "opaque")
    /\ Stale wwwa = default "" (last_value (f :: fs) "stale")
    /\ Algorithm wwwa = default "" (last_value (f :: fs) "algorithm")
    /\ Qop wwwa = default "" (last_value (f :: fs) "qop").
Proof.
  intros Hok. exists (challenge_of (fields_map (f :: fs))). split.
  - apply ParseWWWAuthenticate_trimmed; [now apply TrimSpace_header|exact Hok].
  - unfold challenge_of, index. cbn [Realm Domain Nonce Opaque Stale Algorithm Qop].
    now rewrite !fields_map_lookup.
Qed.

Lemma ParseWWWAuthenticate_fields_witness :
  exists wwwa,
    ParseWWWAuthenticate
      (spaces 2
       +:+ ("Digest "
            +:+ Strings.Join
                  (map field_text
                     [mkField 0 "realm" (Quoted "a, b"); mkField 1 "nonce" (Bare "1f");
                      mkField 0 "charset" (Bare "UTF-8"); mkField 1 "realm" (Quoted "c")]) ",")
       +:+ spaces 1)
    = Ok wwwa
    /\ Realm wwwa = "c" /\ Domain wwwa = "" /\ Nonce wwwa = "1f" /\ Opaque wwwa = ""
    /\ Stale wwwa = "" /\ Algorithm wwwa = "" /\ Qop wwwa = "".
Proof.
  exact (ParseWWWAuthenticate_fields 2 1 (mkField 0 "realm" (Quoted "a, b"))
           [mkField 1 "nonce" (Bare "1f"); mkField 0 "charset" (Bare "UTF-8");
            mkField 1 "realm" (Quoted "c")] eq_refl).
Defined.

(** The word Digest alone, with the blank after it, is refused: the
    blank is trimmed before the prefix is looked for. *)
Remark ParseWWWAuthenticate_bare_scheme :
  ParseWWWAuthenticate "Digest " = Err (Errorf "bad challenge 'Digest'").
Proof. vm_compute. reflexivity. Qed.

(** *** The header [Digest] writes, read by the parser *)

Lemma string_eq_chars (a b : string) :
  list_ascii_of_string a = list_ascii_of_string b -> a = b.
Proof.
  intros E. rewrite <- (string_of_list_ascii_of_string a), <- (string_of_list_ascii_of_string b).
  now rewrite E.
Qed.

Lemma lower_hex_bare (c : ascii) : lower_hex c = true -> bare_char c = true.
Proof.
  intros Hc. unfold bare_char. rewrite (lower_hex_plain c Hc).
  unfold lower_hex, Utf8.between in Hc. cbv zeta in Hc.
  rewrite Ascii_eqb_byte. change (byte_of_ascii ",") with 0x2C.
  unfold visible, Utf8.between.
  apply orb_true_iff in Hc as [Hc|Hc]; apply andb_true_iff in Hc as [H1 H2];
    apply Z.leb_le in H1, H2.
  all: replace (0x21 <=? byte_of_ascii c) with true by (symmetry; apply Z.leb_le; lia).
  all: replace (byte_of_ascii c <=? 0x7E) with true by (symmetry; apply Z.leb_le; lia).
  all: replace (byte_of_ascii c =? 0x2C) with false by (symmetry; apply Z.eqb_neq; lia).
  all: reflexivity.
Qed.

Section DigestParsedBack.

Context {U : Unicode.Tables}.

Lemma ha1_algorithm (a : WWWAuth) (inp : DigestInput) (h1 : string) :
  ha1 a inp = Ok h1 ->
  Algorithm a = "" \/ Algorithm a = "MD5" \/ Algorithm a = "MD5-sess".
Proof.
  unfold ha1.
  destruct (String.eqb_spec (Algorithm a) "") as [->|_]; [auto|].
  destruct (String.eqb_spec (Algorithm a) "MD5") as [->|_]; [auto|].
  destruct (String.eqb_spec (Algorithm a) "MD5-sess") as [->|_]; [auto|].
  discriminate.
Qed.

Lemma client_nonce_plain (rnd : list Z) (inp : DigestInput) :
  forallb plain (list_ascii_of_string (Cnonce inp)) = true ->
  forallb plain (list_ascii_of_string (client_nonce rnd inp)) = true.
Proof.
  intros Hc. unfold client_nonce. destruct (String.eqb (Cnonce inp) ""); [|exact Hc].
  apply Base64_plain.
Qed.

(** The pairs of the header [digestAuth] writes. *)
Lemma digestAuth_fields rnd (a : WWWAuth) (inp : DigestInput) (h1 : string) :
  ha1 a inp = Ok h1 ->
  forallb plain (list_ascii_of_string (Username inp)) = true ->
  forallb plain (list_ascii_of_string (Realm a)) = true ->
  forallb plain (list_ascii_of_string (Nonce a)) = true ->
  forallb plain (list_ascii_of_string (DigestURI inp)) = true ->
  forallb plain (list_ascii_of_string (Cnonce inp)) = true ->
  forallb plain (list_ascii_of_string (Opaque a)) = true ->
  let fs :=
    [mkField 0 "username" (Quoted (Username inp));
     mkField 1 "realm" (Quoted (Realm a));
     mkField 1 "nonce" (Quoted (Nonce a));
     mkField 1 "uri" (Quoted (DigestURI inp));
     mkField 1 "cnonce" (Quoted (client_nonce rnd inp));
     mkField 1 "nc" (Bare (pad08x (NonceCount inp)));
     mkField 1 "qop" (Bare "auth");
     mkField 1 "response" (Quoted (response_spec h1 a inp (client_nonce rnd inp)));
     mkField 1 "algorithm" (Quoted (Algorithm a))]
    ++ (if String.eqb (Opaque a) "" then [] else [mkField 1 "opaque" (Quoted (Opaque a))]) in
  digestAuth rnd a inp = Ok ("Digest " +:+ Strings.Join (map field_text fs) ",")
  /\ forallb field_ok fs = true.
Proof.
  intros Hh Hu Hr Hn Huri Hc Ho fs.
  assert (Ha : forallb plain (list_ascii_of_string (Algorithm a)) = true).
  { destruct (ha1_algorithm a inp h1 Hh) as [->| [->| ->]]; reflexivity. }
  pose proof (client_nonce_plain rnd inp Hc) as Hcn.
  assert (Hresp : forallb plain
                    (list_ascii_of_string (response_spec h1 a inp (client_nonce rnd inp)))
                  = true).
  { unfold response_spec, hexmd5. apply forallb_impl_plain, EncodeToString_lower_hex. }
  split.
  - rewrite (digestAuth_header rnd a inp h1 Hh). f_equal.
    rewrite !Quote_plain by assumption. subst fs.
    apply string_eq_chars.
    destruct (String.eqb (Opaque a) "");
      cbn [app map Strings.Join]; unfold field_text;
      cbn [f_lead f_key f_value value_text spaces]; unfold dquote_string;
      repeat first [rewrite chars_app | progress cbn [list_ascii_of_string app]
                   | rewrite <- app_assoc | rewrite app_nil_r];
      reflexivity.
  - subst fs. rewrite forallb_app. apply andb_true_iff. split.
    + cbn [forallb]. unfold field_ok. cbn [f_key f_value].
      rewrite Hu, Hr, Hn, Huri, Hcn, Hresp, Ha.
      rewrite (forallb_chars_impl lower_hex bare_char _ lower_hex_bare (pad08x_lower_hex _)).
      reflexivity.
    + destruct (String.eqb (Opaque a) ""); [reflexivity|].
      cbn [forallb]. unfold field_ok. cbn [f_key f_value]. now rewrite Ho.
Qed.

(** X7. The header [Digest] writes is one [ParseWWWAuthenticate] reads:
    when the user name, the realm, the nonces, the URI and the opaque
    value are printable ASCII without double quote and backslash, parsing
    the Authorization header gives back the realm, the nonce, the
    algorithm and the opaque value of the challenge, auth as the quality of
    protection, and nothing for the domain and the stale flag. *)
Theorem Digest_parsed_back rnd (a : WWWAuth) (inp : DigestInput) (authh : string) :
  Digest rnd a inp = Ok authh ->
  forallb plain (list_ascii_of_string (Username inp)) = true ->
  forallb plain (list_ascii_of_string (Realm a)) = true ->
  forallb plain (list_ascii_of_string (Nonce a)) = true ->
  forallb plain (list_ascii_of_string (DigestURI inp)) = true ->
  forallb plain (list_ascii_of_string (Cnonce inp)) = true ->
  forallb plain (list_ascii_of_string (Opaque a)) = true ->
  ParseWWWAuthenticate authh
  = Ok {| Realm := Realm a; Domain := ""; Nonce := Nonce a; Opaque := Opaque a; Stale := "";
          Algorithm := Algorithm a; Qop := "auth" |}.
Proof.
  intros Hd Hu Hr Hn Huri Hc Ho.
  rewrite Digest_counted in Hd.
  destruct (in_dec string_dec "auth" (Strings.Split (Qop a) ",")) as [Hin|Hnin];
    [|rewrite Digest_range_none in Hd by exact Hnin; discriminate Hd].
  rewrite Digest_range_auth in Hd by exact Hin.
  assert (Hinp : Username (counted inp) = Username inp
                 /\ DigestURI (counted inp) = DigestURI inp
                 /\ Cnonce (counted inp) = Cnonce inp).
  { unfold counted. destruct (NonceCount inp =? 0); auto. }
  destruct Hinp as (Eu & Euri & Ec).
  destruct (ha1 a (counted inp)) as [h1|e] eqn:Eh;
    [|unfold digestAuth in Hd; rewrite Eh in Hd; discriminate Hd].
  pose proof (digestAuth_fields rnd a (counted inp) h1 Eh) as Hf.
  rewrite Eu, Euri, Ec in Hf. specialize (Hf Hu Hr Hn Huri Hc Ho). cbv zeta in Hf.
  destruct Hf as [Hhdr Hok].
  match type of Hok with forallb field_ok ?l = true => set (fs := l) in * end.
  assert (Hne : fs <> []) by (subst fs; discriminate).
  assert (E : authh = "Digest " +:+ Strings.Join (map field_text fs) ",") by congruence.
  rewrite E.
  rewrite (ParseWWWAuthenticate_trimmed _ fs (TrimSpace_header_trimmed fs Hne Hok) Hok).
  subst fs. f_equal. unfold challenge_of, index. rewrite !fields_map_lookup. unfold last_value.
  rewrite rev_app_distr.
  destruct (String.eqb_spec (Opaque a) "") as [->|Hopaque]; reflexivity.
Qed.

(** X18. A transport made by [New] leaves the client nonce to the
    engine: its generator returns the empty string and changes nothing, so
    every Authorization header such a transport computes carries the
    client nonce [newCnonce] makes of the random bytes, and, as for every
    transport, the nonce count 00000001. *)
Theorem New_authorization {World : Type} (username password : string)
    (dt : RoundTripper World) (gen : World -> string * World) (w : World)
    (r : Request World) (chal : WWWAuth) (rnd : list Z) (authh : string) :
  CnonceGen (New username password dt) = Some gen ->
  Digest rnd chal (digestInput (New username password dt) r (fst (gen w))) = Ok authh ->
  gen w = ("", w)
  /\ exists h1,
       ha1 chal (mkDigestInput username password (RequestURI (req_URL r)) 1 ""
                   (req_Method r)) = Ok h1
       /\ authh
          = "Digest username=" +:+ Strconv.Quote username
            +:+ ", realm=" +:+ Strconv.Quote (Realm chal)
            +:+ ", nonce=" +:+ Strconv.Quote (Nonce chal)
            +:+ ", uri=" +:+ Strconv.Quote (RequestURI (req_URL r))
            +:+ ", cnonce=" +:+ Strconv.Quote (newCnonce rnd)
            +:+ ", nc=00000001"
            +:+ ", qop=auth"
            +:+ ", response="
            +:+ Strconv.Quote
                  (hexmd5 (h1 +:+ ":" +:+ Nonce chal +:+ ":00000001:" +:+ newCnonce rnd
                           +:+ ":auth:"
                           +:+ hexmd5 (req_Method r +:+ ":" +:+ RequestURI (req_URL r))))
            +:+ ", algorithm=" +:+ Strconv.Quote (Algorithm chal)
            +:+ (if String.eqb (Opaque chal) "" then ""
                 else ", opaque=" +:+ Strconv.Quote (Opaque chal)).
Proof.
  intros Hg Hd. injection Hg as <-. cbn [fst] in Hd. split; [reflexivity|].
  rewrite Digest_counted in Hd.
  destruct (in_dec string_dec "auth" (Strings.Split (Qop chal) ",")) as [Hin|Hnin];
    [|rewrite Digest_range_none in Hd by exact Hnin; discriminate Hd].
  rewrite Digest_range_auth in Hd by exact Hin.
  change (counted (digestInput (New username password dt) r ""))
    with (mkDigestInput username password (RequestURI (req_URL r)) 1 "" (req_Method r)) in Hd.
  destruct (ha1 chal (mkDigestInput username password (RequestURI (req_URL r)) 1 ""
                        (req_Method r))) as [h1|e] eqn:Eh;
    [|unfold digestAuth in Hd; rewrite Eh in Hd; discriminate Hd].
  exists h1. split; [reflexivity|].
  rewrite (digestAuth_header rnd chal _ h1 Eh) in Hd.
  unfold response_spec, HA2_spec, client_nonce in Hd.
  cbn [Username DigestURI NonceCount Cnonce Method String.eqb] in Hd.
  change (pad08x 1) with "00000001" in Hd.
  assert (E : forall x y : string, Ok (E := error) x = Ok y -> y = x) by (intros x y [= ->]; reflexivity).
  apply E in Hd. rewrite Hd.
  cbv beta iota delta [String.append]. reflexivity.
Qed.

End DigestParsedBack.

Lemma New_authorization_witness :
  (fun w : nat => (EmptyString, w)) 0%nat = ("", 0%nat).
Proof.
  refine (proj1 (New_authorization (U := no_wide_runes) "john" "hello" digest_server
                   (fun w => (EmptyString, w)) 0%nat example_request fresh_challenge
                   (repeat 0 16)
                   (match Digest (U := no_wide_runes) (repeat 0 16) fresh_challenge
                            (digestInput (New "john" "hello" digest_server) example_request "")
                    with Ok authh => authh | Err _ => EmptyString end)
                   eq_refl _)).
  vm_compute. reflexivity.
Defined.

Lemma Digest_parsed_back_witness :
  ParseWWWAuthenticate example_authorization
  = Ok {| Realm := "monero-rpc"; Domain := ""; Nonce := "E/fIX+Kmic5GyK1ydhPoFA==";
          Opaque := ""; Stale := ""; Algorithm := "MD5"; Qop := "auth" |}.
Proof.
  refine (Digest_parsed_back (U := no_wide_runes) [] example_challenge example_input
            example_authorization _ eq_refl eq_refl eq_refl eq_refl eq_refl eq_refl).
  vm_compute. reflexivity.
Defined.

(** ** The transports, further *)

Section FurtherTransportProperties.

Context {U : Unicode.Tables} {World : Type} (rand_Read : World -> list Z * World).

Ltac split_match :=
  match goal with
  | |- context [match ?x with _ => _ end] =>
      lazymatch x with
      | context [match _ with _ => _ end] => fail
      | _ => destruct x eqn:?
      end
  end.

Ltac reduce :=
  cbn beta iota zeta delta
    [world req authCache set_Body set_Header req_URL req_Method req_Header req_Body GetBody
     fst snd andb negb option_map].

Ltac run :=
  unfold bind, ret, fail, get_req, put_req, in_world, send, send_req, chal_Digest,
    authCache_Get, authCache_Set, authCache_Del;
  reduce; repeat (split_match; reduce).

Lemma drainBody_ok (b : body) (r1 r2 : option body) :
  drainBody b = (r1, r2, None) ->
  readable b = true /\ r1 = Some (copy_of b) /\ r2 = Some (copy_of b).
Proof.
  destruct b as [|[data [e1|] [e2|]]]; cbn; intros Heq; try discriminate Heq.
  all: injection Heq as <- <-; auto.
Qed.

(** X8. A successful [doAuthRequest] made one round trip, with a request
    that has the method, the URL and the header of the caller's and a
    reader of its own over the same body: the reader [GetBody] returned,
    or, without [GetBody], a copy of the bytes, of which the caller's
    request keeps another.  The response is the one of that round trip,
    its body read to the end when the status is 401. *)
Theorem doAuthRequest_probe {C} (rt : RoundTripper World) (m m' : Mem World C)
    (resp : Response) :
  doAuthRequest rt m = (m', Ok resp) ->
  exists (probe : Request World) (w0 : World) (consumed : body) (resp0 : Response),
    rt w0 probe = (world m', consumed, Ok resp0)
    /\ req_Method probe = req_Method (req m)
    /\ req_URL probe = req_URL (req m)
    /\ req_Header probe = req_Header (req m)
    /\ resp = (if StatusCode resp0 =? StatusUnauthorized then discard resp0 else resp0)
    /\ authCache m' = authCache m
    /\ match req_Body (req m), GetBody (req m) with
       | None, _ => req_Body probe = None /\ w0 = world m /\ req m' = req m
       | Some b, None =>
           readable b = true /\ req_Body probe = Some (copy_of b) /\ w0 = world m
           /\ req m' = set_Body (req m) (Some (copy_of b))
       | Some b, Some g => g (world m) = (req_Body probe, None, w0) /\ req m' = req m
       end.
Proof.
  unfold doAuthRequest. destruct m as [w r c]. destruct r as [me u h b g].
  unfold bind, ret, fail, get_req, put_req, in_world, send. reduce.
  destruct b as [b|]; [destruct g as [g|]|]; reduce.
  - destruct (g w) as [[b' [e|]] w0] eqn:Eg; reduce; [discriminate|].
    destruct (rt w0 _) as [[w1 consumed] [resp0|e]] eqn:Ert; reduce; [|discriminate].
    intros Heq. exists (mkRequest me u h b' (Some g)), w0, consumed, resp0.
    destruct (StatusCode resp0 =? StatusUnauthorized); injection Heq as <- <-; cbn;
      repeat split; assumption.
  - destruct (drainBody b) as [[save body2] [e|]] eqn:Ed; reduce; [discriminate|].
    apply drainBody_ok in Ed as (Hr & -> & ->).
    destruct (rt w _) as [[w1 consumed] [resp0|e]] eqn:Ert; reduce; [|discriminate].
    intros Heq. exists (mkRequest me u h (Some (copy_of b)) None), w, consumed, resp0.
    destruct (StatusCode resp0 =? StatusUnauthorized); injection Heq as <- <-; cbn;
      repeat split; assumption.
  - destruct (rt w _) as [[w1 consumed] [resp0|e]] eqn:Ert; reduce; [|discriminate].
    intros Heq. exists (mkRequest me u h None g), w, consumed, resp0.
    destruct (StatusCode resp0 =? StatusUnauthorized); injection Heq as <- <-; cbn;
      repeat split; assumption.
Qed.

(** X9. An error of [doAuthRequest] is the error met in duplicating the
    body, and then no request was sent, or the error of its one round
    trip.  When [drainBody] fails the caller's request is left with the
    reader it had, read to the point of failure. *)
Theorem doAuthRequest_error {C} (rt : RoundTripper World) (m m' : Mem World C) (e : error) :
  doAuthRequest rt m = (m', Err e) ->
  authCache m' = authCache m
  /\ ((exists rc,
         req_Body (req m) = Some (Reader rc) /\ GetBody (req m) = None
         /\ readable (Reader rc) = false
         /\ (read_error rc = Some e \/ read_error rc = None /\ close_error rc = Some e)
         /\ world m' = world m
         /\ req m' = set_Body (req m) (Some (exhausted rc)))
      \/ (exists g b,
            req_Body (req m) <> None /\ GetBody (req m) = Some g
            /\ g (world m) = (b, Some e, world m') /\ req m' = req m)
      \/ (exists probe w0 consumed,
            rt w0 probe = (world m', consumed, Err e)
            /\ req_Method probe = req_Method (req m)
            /\ req_URL probe = req_URL (req m)
            /\ req_Header probe = req_Header (req m))).
Proof.
  unfold doAuthRequest. destruct m as [w r c]. destruct r as [me u h b g].
  unfold bind, ret, fail, get_req, put_req, in_world, send. reduce.
  destruct b as [b|]; [destruct g as [g|]|]; reduce.
  - destruct (g w) as [[b' [e'|]] w0] eqn:Eg; reduce.
    + intros Heq; injection Heq as <- <-. split; [reflexivity|]. right; left.
      exists g, b'. cbn. repeat split; [discriminate|assumption].
    + destruct (rt w0 _) as [[w1 consumed] [resp0|e']] eqn:Ert; reduce.
      * destruct (StatusCode resp0 =? StatusUnauthorized); discriminate.
      * intros Heq; injection Heq as <- <-. split; [reflexivity|]. right; right.
        exists (mkRequest me u h b' (Some g)), w0, consumed. cbn. repeat split; assumption.
  - destruct b as [|[data [e1|] [e2|]]]; cbn [drainBody read_error close_error unread]; reduce.
    1,5: destruct (rt w _) as [[w1 consumed] [resp0|e']] eqn:Ert; reduce;
      [destruct (StatusCode resp0 =? StatusUnauthorized); discriminate|];
      intros Heq; injection Heq as <- <-; (split; [reflexivity|]); right; right;
      eexists _, w, consumed; repeat split; first [eassumption | reflexivity].
    all: intros Heq; injection Heq as <- <-; (split; [reflexivity|]); left;
      eexists; cbn; repeat split; auto.
  - destruct (rt w _) as [[w1 consumed] [resp0|e']] eqn:Ert; reduce.
    + destruct (StatusCode resp0 =? StatusUnauthorized); discriminate.
    + intros Heq; injection Heq as <- <-. split; [reflexivity|]. right; right.
      exists (mkRequest me u h None g), w, consumed. cbn. repeat split; assumption.
Qed.

Lemma Header_Set_Get (h : Header) (k v : string) : Header_Get (Header_Set h k v) k = v.
Proof. unfold Header_Get, Header_Set. now rewrite lookup_insert_eq. Qed.

(** X10. When [RoundTrip] succeeds, the probe carried a challenge that
    [ParseWWWAuthenticate] accepts and that offers the quality of
    protection auth; the response is the one of a second round trip, whose
    request is the caller's with the Authorization header set to the
    digest of that challenge; the caller's request keeps that header. *)
Theorem RoundTrip_success {C} (t : Transport World) (m m' : Mem World C) (resp : Response) :
  RoundTrip rand_Read t m = (m', Ok resp) ->
  exists rt gen m1 probe chal cnonce w2 authh w3 consumed,
    t_Transport t = Some rt /\ CnonceGen t = Some gen
    /\ doAuthRequest rt m = (m1, Ok probe)
    /\ ParseWWWAuthenticate (Header_Get (resp_Header probe) "WWW-Authenticate") = Ok chal
    /\ In "auth" (Strings.Split (Qop chal) ",")
    /\ gen (world m1) = (cnonce, w2)
    /\ Digest (fst (rand_Read w2)) chal (digestInput t (req m1) cnonce) = Ok authh
    /\ rt w3 (set_Header (req m1) (Header_Set (req_Header (req m1)) "Authorization" authh))
       = (world m', consumed, Ok resp)
    /\ Header_Get (req_Header (req m')) "Authorization" = authh
    /\ authCache m' = authCache m.
Proof.
  unfold RoundTrip.
  destruct (t_Transport t) as [rt|]; [|discriminate].
  destruct (CnonceGen t) as [gen|]; [|discriminate].
  unfold bind at 1. destruct (doAuthRequest rt m) as [m1 [probe|e]] eqn:Ed; [|discriminate].
  pose proof (doAuthRequest_frame rt m m1 _ Ed) as [Hc _].
  unfold bind at 1.
  destruct (ParseWWWAuthenticate _) as [chal|e] eqn:Ep; [|discriminate].
  destruct m1 as [w1 r1 c1]. cbn [authCache] in Hc. subst c1.
  unfold bind, ret, fail, get_req, put_req, in_world, send_req, chal_Digest. reduce.
  destruct (gen w1) as [cnonce w2] eqn:Egen. reduce.
  destruct (rand_Read w2) as [rnd w2'] eqn:Er. reduce.
  destruct (Digest rnd chal (digestInput t r1 cnonce)) as [authh|e] eqn:EDig; [|discriminate].
  assert (Hauth : In "auth" (Strings.Split (Qop chal) ",")).
  { destruct (in_dec string_dec "auth" (Strings.Split (Qop chal) ",")) as [Hin|Hn]; [exact Hin|].
    rewrite Digest_counted, Digest_range_none in EDig by exact Hn. discriminate EDig. }
  destruct (String.eqb (Cnonce (digestInput t r1 cnonce)) ""); reduce.
  all: match goal with
       | |- context [match ?x with _ => _ end] =>
           lazymatch x with
           | context [match _ with _ => _ end] => fail
           | _ => destruct x as [[w3 consumed] [resp'|e]] eqn:Ert
           end
       end; reduce; [|discriminate].
  all: intros Heq; injection Heq as <- <-.
  all: eexists rt, gen, _, probe, chal, cnonce, w2, authh, _, consumed.
  all: repeat split; try reflexivity; try eassumption.
  all: cbn [world req authCache]; try (now rewrite Er); try exact Ert.
  all: cbn; apply Header_Set_Get.
Qed.

Lemma chal_Digest_frame {C} chal inp (m m' : Mem World C) r :
  chal_Digest rand_Read chal inp m = (m', r) -> req m' = req m /\ authCache m' = authCache m.
Proof.
  unfold chal_Digest. destruct (rand_Read (world m)) as [rnd w].
  destruct (Digest _ _ _); [destruct (String.eqb _ _)|]; intros Heq; injection Heq as <- <-; auto.
Qed.

(** X11. With a challenge in the cache the cached transport sends no
    probe: when the answer to the authenticated request is not a 401
    response, that one round trip is the whole call, its outcome (the
    response or the error) is returned, and nothing is written to the
    cache. *)
Theorem CachedRoundTrip_hit {C} `{Cache C} (t : Transport World) rt gen (w : World)
    (r : Request World) (c c1 : C) chal cnonce w1 m2 authh w3 consumed res :
  t_Transport t = Some rt ->
  CnonceGen t = Some gen ->
  cache_Get c (cacheKey t r) = (Some chal, c1) ->
  gen w = (cnonce, w1) ->
  chal_Digest rand_Read chal (digestInput t r cnonce) (mkMem w1 r (Some c1)) = (m2, Ok authh) ->
  rt (world m2) (set_Header r (Header_Set (req_Header r) "Authorization" authh))
    = (w3, consumed, res) ->
  (forall resp, res = Ok resp -> StatusCode resp <> StatusUnauthorized) ->
  forall fuel,
    CachedRoundTrip rand_Read (S fuel) t (mkMem w r (Some c))
    = Some (mkMem w3
              (set_Body (set_Header r (Header_Set (req_Header r) "Authorization" authh))
                 (option_map (fun _ => consumed) (req_Body r)))
              (Some c1), res).
Proof.
  intros Ht Hg Hc Hgen Hd Hrt Hs fuel.
  pose proof (chal_Digest_frame _ _ _ _ _ Hd) as [Hr2 Hc2]. cbn [req authCache] in Hr2, Hc2.
  cbn [CachedRoundTrip]. unfold CachedRoundTrip_pass. rewrite Ht, Hg.
  unfold bind, ret, fail, get_req, put_req, in_world, send_req, authCache_Get, authCache_Del.
  reduce. rewrite Hc. reduce. rewrite Hgen. reduce. rewrite Hd. reduce.
  rewrite Hr2, Hc2, Hrt. reduce.
  destruct res as [resp|e]; reduce; [|reflexivity].
  specialize (Hs resp eq_refl). apply Z.eqb_neq in Hs. rewrite Hs. reflexivity.
Qed.

(** X12. A cached challenge that [Digest] refuses makes the call fail
    before any request is sent, whatever the transport underneath; the
    entry stays in the cache. *)
Theorem CachedRoundTrip_hit_refused {C} `{Cache C} (t : Transport World) rt gen (w : World)
    (r : Request World) (c c1 : C) chal cnonce w1 :
  t_Transport t = Some rt ->
  CnonceGen t = Some gen ->
  cache_Get c (cacheKey t r) = (Some chal, c1) ->
  gen w = (cnonce, w1) ->
  ~ In "auth" (Strings.Split (Qop chal) ",") ->
  forall fuel,
    CachedRoundTrip rand_Read (S fuel) t (mkMem w r (Some c))
    = Some (mkMem w1 r (Some c1), Err (UnsupportedQop (Qop chal))).
Proof.
  intros Ht Hg Hc Hgen Hq fuel.
  cbn [CachedRoundTrip]. unfold CachedRoundTrip_pass. rewrite Ht, Hg.
  unfold bind, ret, fail, get_req, put_req, in_world, send_req, authCache_Get, chal_Digest.
  reduce. rewrite Hc. reduce. rewrite Hgen. reduce.
  destruct (rand_Read w1) as [rnd w2].
  rewrite Digest_counted, Digest_range_none by exact Hq. reflexivity.
Qed.

(** X13. On a miss the challenge of the probe is written to the cache as
    soon as it is parsed, before [Digest] looks at it: whatever the rest
    of the pass does, the cache it leaves is the one after that [Set].
    A challenge that [Digest] refuses is cached all the same, and the pass
    fails without a second request. *)
Theorem CachedRoundTrip_miss_stores {C} `{Cache C} (t : Transport World) rt gen (w : World)
    (r : Request World) (c c1 : C) m1 probe chal :
  t_Transport t = Some rt ->
  CnonceGen t = Some gen ->
  cache_Get c (cacheKey t r) = (None, c1) ->
  doAuthRequest rt (mkMem w r (Some c1)) = (m1, Ok probe) ->
  ParseWWWAuthenticate (Header_Get (resp_Header probe) "WWW-Authenticate") = Ok chal ->
  let stored := cache_Set c1 (cacheKey t r) chal 1 in
  authCache (fst (CachedRoundTrip_pass rand_Read t (mkMem w r (Some c)))) = Some stored
  /\ (~ In "auth" (Strings.Split (Qop chal) ",") ->
      forall fuel,
        CachedRoundTrip rand_Read (S fuel) t (mkMem w r (Some c))
        = Some (mkMem (snd (gen (world m1))) (req m1) (Some stored),
                Err (UnsupportedQop (Qop chal)))).
Proof.
  intros Ht Hg Hc Hd Hp stored.
  pose proof (doAuthRequest_frame rt _ _ _ Hd) as [Hc1 _]. cbn [authCache] in Hc1.
  destruct m1 as [w1 r1 c1']. cbn [authCache] in Hc1. subst c1'.
  split.
  - unfold CachedRoundTrip_pass. rewrite Ht, Hg.
    unfold bind, ret, fail, get_req, put_req, in_world, send_req, authCache_Get, authCache_Set,
      chal_Digest.
    reduce. rewrite Hc. reduce. rewrite Hd. reduce. rewrite Hp. reduce.
    repeat (split_match; reduce; rewrite ?andb_false_r); reflexivity.
  - intros Hq fuel. cbn [CachedRoundTrip]. unfold CachedRoundTrip_pass. rewrite Ht, Hg.
    unfold bind, ret, fail, get_req, put_req, in_world, send_req, authCache_Get, authCache_Set,
      chal_Digest.
    reduce. rewrite Hc. reduce. rewrite Hd. reduce. rewrite Hp. reduce.
    destruct (gen w1) as [cnonce w2]. reduce.
    destruct (rand_Read w2) as [rnd w2'].
    rewrite Digest_counted, Digest_range_none by exact Hq. reflexivity.
Qed.

(** X14. Without a cache the cached transport is the plain transport. *)
Theorem CachedRoundTrip_without_cache {C} `{Cache C} (t : Transport World) (m : Mem World C) :
  authCache m = None ->
  forall fuel, CachedRoundTrip rand_Read (S fuel) t m = Some (RoundTrip rand_Read t m).
Proof.
  intros Hn fuel. cbn [CachedRoundTrip]. unfold CachedRoundTrip_pass, RoundTrip.
  destruct (t_Transport t) as [rt|]; [|reflexivity].
  destruct (CnonceGen t) as [gen|]; [|reflexivity].
  destruct m as [w r c]. cbn [authCache] in Hn. subst c.
  unfold bind, ret, fail, get_req, put_req, in_world, send_req, authCache_Get, authCache_Set,
    chal_Digest.
  reduce.
  destruct (doAuthRequest rt (mkMem w r None)) as [m1 [probe|e]] eqn:Ed; reduce; [|reflexivity].
  pose proof (doAuthRequest_frame rt _ _ _ Ed) as [Hc1 _]. cbn [authCache] in Hc1.
  destruct m1 as [w1 r1 c1']. cbn [authCache] in Hc1. subst c1'. reduce.
  repeat (split_match; reduce; rewrite ?andb_false_r); reflexivity.
Qed.

(** *** The other revisions of transport.go *)

(** X15. The revision of [RoundTrip] written with [extractResponseAuth]
    and [applyRequestAuth] and the current one, in which the two are
    inlined, do the same: same memory afterwards, same response or
    error. *)
Theorem Helpers_RoundTrip_current {C} (t : Transport World) (m : Mem World C) :
  Helpers.RoundTrip rand_Read t m = RoundTrip rand_Read t m.
Proof.
  unfold Helpers.RoundTrip, RoundTrip, Helpers.extractResponseAuth, Helpers.applyRequestAuth.
  destruct (t_Transport t) as [rt|]; [|reflexivity].
  destruct (CnonceGen t) as [gen|]; [|reflexivity].
  unfold bind, ret, fail, get_req, put_req, in_world, send_req, chal_Digest. reduce.
  destruct (doAuthRequest rt m) as [m1 [probe|e]]; reduce; [|reflexivity].
  repeat (split_match; reduce); reflexivity.
Qed.

(** X16. In the revision where [RoundTrip] does everything itself, a
    first response whose status is not 401 is what the caller gets, after
    that one round trip; the request sent is the caller's own, with the
    copy of its body that [drainBody] made. *)
Theorem Original_RoundTrip_not_401 {C} (t : Transport World) rt gen (m : Mem World C)
    (w1 : World) (consumed : body) (resp : Response) :
  t_Transport t = Some rt ->
  CnonceGen t = Some gen ->
  GetBody (req m) = None ->
  (forall b, req_Body (req m) = Some b -> readable b = true) ->
  let sent := set_Body (req m) (option_map copy_of (req_Body (req m))) in
  rt (world m) sent = (w1, consumed, Ok resp) ->
  StatusCode resp <> StatusUnauthorized ->
  Original.RoundTrip rand_Read t m
  = (mkMem w1 (set_Body (req m) (option_map (fun _ => consumed) (req_Body (req m))))
       (authCache m), Ok resp).
Proof.
  intros Ht Hg HG Hb sent Hrt Hs. unfold Original.RoundTrip. rewrite Ht, Hg.
  destruct m as [w r c]. destruct r as [me u h b g]. cbn in HG. subst g.
  subst sent. cbn in Hrt, Hb |- *.
  apply Z.eqb_neq in Hs.
  unfold bind, ret, fail, get_req, put_req, in_world, send_req. reduce.
  destruct b as [b|]; reduce.
  - specialize (Hb b eq_refl).
    destruct b as [|[data [e1|] [e2|]]]; try discriminate Hb;
      cbn [drainBody read_error close_error unread]; reduce;
      unfold set_Body in Hrt |- *;
      cbn [option_map copy_of unread req_Method req_URL req_Header req_Body GetBody] in Hrt |- *;
      rewrite Hrt; reduce; rewrite Hs; reflexivity.
  - unfold set_Body in Hrt |- *.
    cbn [option_map copy_of req_Method req_URL req_Header req_Body GetBody] in Hrt |- *.
    rewrite Hrt. reduce. rewrite Hs. reflexivity.
Qed.

(** X17. That revision never writes to the header of the caller's
    request: the Authorization header is set on the clone. *)
Theorem Original_RoundTrip_header {C} (t : Transport World) (m m' : Mem World C) res :
  Original.RoundTrip rand_Read t m = (m', res) ->
  req_Header (req m') = req_Header (req m) /\ authCache m' = authCache m.
Proof.
  unfold Original.RoundTrip.
  destruct (t_Transport t) as [rt|]; [|now intros [= <- _]].
  destruct (CnonceGen t) as [gen|]; [|now intros [= <- _]].
  destruct m as [w r c]. run.
  all: intros Heq; injection Heq as <- <-; split; reflexivity.
Qed.

End FurtherTransportProperties.

(** *** The further properties against the model servers *)

Lemma doAuthRequest_probe_witness :
  exists probe w0 consumed resp0,
    closed_server w0 probe = (1%nat, consumed, Ok resp0)
    /\ req_Body probe = Some (NopCloser "payload").
Proof.
  destruct (doAuthRequest_probe closed_server
              (mkMem 0%nat example_post (@None unit))
              (mkMem 1%nat example_post None)
              (mkResponse 401 {[ "Www-Authenticate" := [challenge_value] ]}
                 (Reader (mkReadCloser "" None None)))
              eq_refl)
    as (probe & w0 & consumed & resp0 & Hrt & _ & _ & _ & _ & _ & _ & Hb & _).
  exists probe, w0, consumed, resp0. split; [exact Hrt|exact Hb].
Defined.

Lemma doAuthRequest_error_witness :
  authCache (mkMem 0%nat (set_Body broken_post (Some (exhausted broken_reader))) (@None unit))
  = None.
Proof.
  exact (proj1 (doAuthRequest_error closed_server
                  (mkMem 0%nat broken_post (@None unit))
                  (mkMem 0%nat (set_Body broken_post (Some (exhausted broken_reader))) None)
                  (Errorf "unexpected EOF") eq_refl)).
Defined.

Lemma RoundTrip_success_witness :
  exists chal authh,
    ParseWWWAuthenticate challenge_value = Ok chal
    /\ In "auth" (Strings.Split (Qop chal) ",")
    /\ Header_Get
         (req_Header
            (req (fst (RoundTrip (U := no_wide_runes) example_rand
                         (example_transport digest_server)
                         (mkMem 0%nat example_request (@None unit))))))
         "Authorization" = authh.
Proof.
  assert (E : RoundTrip (U := no_wide_runes) example_rand (example_transport digest_server)
                (mkMem 0%nat example_request (@None unit))
              = (fst (RoundTrip (U := no_wide_runes) example_rand
                        (example_transport digest_server)
                        (mkMem 0%nat example_request (@None unit))),
                 Ok (mkResponse 200 ∅ (NopCloser "Hello, john!"))))
    by (vm_compute; reflexivity).
  destruct (RoundTrip_success (U := no_wide_runes) example_rand _ _ _ _ E)
    as (rt & gen & m1 & probe & chal & cnonce & w2 & authh & w3 & consumed
        & Ht & _ & Hd & Hp & Hin & _ & _ & _ & Hh & _).
  exists chal, authh. split; [|split; [exact Hin|exact Hh]].
  injection Ht as <-. vm_compute in Hd. injection Hd as _ <-. exact Hp.
Defined.

Lemma CachedRoundTrip_hit_witness :
  CachedRoundTrip (U := no_wide_runes) example_rand 1 (example_transport digest_server)
    (mkMem 0%nat example_request (Some {[ "example.com,john,hello" := fresh_challenge ]}))
  = Some (mkMem 1%nat
            (set_Body
               (set_Header example_request
                  (Header_Set (req_Header example_request) "Authorization" fresh_authorization))
               (option_map (fun _ => NoBody) (req_Body example_request)))
            (Some {[ "example.com,john,hello" := fresh_challenge ]}),
          Ok (mkResponse 200 ∅ (NopCloser "Hello, john!"))).
Proof.
  refine (CachedRoundTrip_hit (U := no_wide_runes) example_rand
            (example_transport digest_server) digest_server example_gen
            0%nat example_request
            {[ "example.com,john,hello" := fresh_challenge ]}
            {[ "example.com,john,hello" := fresh_challenge ]}
            fresh_challenge "0a4f113b" 0%nat
            (mkMem 0%nat example_request
               (Some {[ "example.com,john,hello" := fresh_challenge ]}))
            fresh_authorization 1%nat NoBody
            (Ok (mkResponse 200 ∅ (NopCloser "Hello, john!")))
            eq_refl eq_refl _ eq_refl _ _ _ 0%nat).
  - vm_compute. reflexivity.
  - vm_compute. reflexivity.
  - vm_compute. reflexivity.
  - intros resp Heq. injection Heq as <-. discriminate.
Defined.

Lemma CachedRoundTrip_hit_refused_witness :
  CachedRoundTrip (U := no_wide_runes) example_rand 1 (example_transport closed_server)
    (mkMem 0%nat example_request (Some {[ "example.com,john,hello" := auth_int_challenge ]}))
  = Some (mkMem 0%nat example_request (Some {[ "example.com,john,hello" := auth_int_challenge ]}),
          Err (UnsupportedQop "auth-int")).
Proof.
  refine (CachedRoundTrip_hit_refused (U := no_wide_runes) example_rand
            (example_transport closed_server) closed_server example_gen 0%nat example_request
            {[ "example.com,john,hello" := auth_int_challenge ]}
            {[ "example.com,john,hello" := auth_int_challenge ]}
            auth_int_challenge "0a4f113b" 0%nat eq_refl eq_refl _ eq_refl _ 0%nat).
  - vm_compute. reflexivity.
  - intros [H|[]]. discriminate H.
Defined.

Lemma CachedRoundTrip_miss_stores_witness :
  authCache (fst (CachedRoundTrip_pass (U := no_wide_runes) example_rand
                    (example_transport auth_int_server)
                    (mkMem 0%nat example_request (Some (∅ : gmap string WWWAuth)))))
  = Some (<[ "example.com,john,hello" := auth_int_parsed ]> ∅).
Proof.
  refine (proj1 (CachedRoundTrip_miss_stores (U := no_wide_runes) example_rand
                   (example_transport auth_int_server) auth_int_server example_gen
                   0%nat example_request ∅ ∅
                   (mkMem 1%nat example_request (Some ∅))
                   (mkResponse 401
                      {[ "Www-Authenticate" :=
                           [dq "Digest realm=`example.com`, nonce=`2d7c6e1a`, qop=`auth-int`"] ]}
                      (Reader (mkReadCloser "" None None)))
                   auth_int_parsed eq_refl eq_refl _ eq_refl _)).
  - vm_compute. reflexivity.
  - vm_compute. reflexivity.
Defined.

Lemma CachedRoundTrip_without_cache_witness :
  CachedRoundTrip (U := no_wide_runes) example_rand 1 (example_transport digest_server)
    (mkMem 0%nat example_request (@None (gmap string WWWAuth)))
  = Some (RoundTrip (U := no_wide_runes) example_rand (example_transport digest_server)
            (mkMem 0%nat example_request None)).
Proof.
  exact (CachedRoundTrip_without_cache (U := no_wide_runes) example_rand
           (example_transport digest_server)
           (mkMem 0%nat example_request (@None (gmap string WWWAuth))) eq_refl 0%nat).
Defined.

Lemma Original_RoundTrip_not_401_witness :
  Original.RoundTrip (U := no_wide_runes) example_rand (example_transport open_server)
    (mkMem 0%nat example_post (@None unit))
  = (mkMem 1%nat (set_Body example_post (Some NoBody)) None,
     Ok (mkResponse 200 ∅ (NopCloser "Hello"))).
Proof.
  refine (Original_RoundTrip_not_401 (U := no_wide_runes) example_rand
            (example_transport open_server) open_server example_gen
            (mkMem 0%nat example_post (@None unit)) 1%nat NoBody
            (mkResponse 200 ∅ (NopCloser "Hello")) eq_refl eq_refl eq_refl _ eq_refl _).
  - intros b Hb. injection Hb as <-. reflexivity.
  - discriminate.
Defined.

Lemma Original_RoundTrip_header_witness :
  req_Header
    (req (fst (Original.RoundTrip (U := no_wide_runes) example_rand
                 (example_transport digest_server)
                 (mkMem 0%nat example_request (@None unit)))))
  = ∅.
Proof.
  refine (proj1 (Original_RoundTrip_header (U := no_wide_runes) example_rand
                   (example_transport digest_server)
                   (mkMem 0%nat example_request (@None unit)) _ _ _)).
  apply surjective_pairing.
Defined.
